(** * python-swat: the native-extension build step and the runtime binding bridge

    A shallow embedding of [setup.py] ([BuildExtCommand]) and of
    [swat/clib.py] (the forwarding entry points, [InitializeTK] and
    [errorcheck]), followed by the properties established about them.

    Python text is modelled as [string], the bytes that carry it;
    [os.environ] and the per-call environment dictionaries are finite maps
    from names to values; exceptions are values of [exn] carried by
    [result]; code that mutates process state is written in a small
    state-and-exception monad. *)

From Stdlib Require Import String Ascii List ZArith Bool Lia.
From stdpp Require Import base gmap strings list.
Import ListNotations.
Open Scope string_scope.

(** ** Python-level vocabulary shared by both source files *)
Module Py.

(** Exceptions the two files raise or let through. *)
Inductive exn : Type :=
| ImportError (msg : string)
| NameError (name : string)
| KeyError (key : string)
| TypeError (msg : string)
| AttributeError (msg : string)
| ValueError (msg : string)
| RuntimeError (msg : string)
| SWATError (msg : string)
| CalledProcessError (returncode : Z) (cmd : list string)
| OSError (msg : string)
| ForeignError (msg : string).

Inductive result (A : Type) : Type :=
| Return (a : A)
| Raise (e : exn).
Arguments Return {A} a.
Arguments Raise {A} e.

(** Values that travel through [*args] / [**kwargs]. *)
Inductive pyval : Type :=
| PyNone
| PyInt (z : Z)
| PyStr (s : string)
| PyObj (id : nat).

(** State-and-exception monad: a statement run in state [S] yields a
    value or an exception, and the state reached either way. *)
Definition M (S A : Type) : Type := S -> result A * S.

Definition ret {S A} (a : A) : M S A := fun s => (Return a, s).
Definition raise {S A} (e : exn) : M S A := fun s => (Raise e, s).
Definition bind {S A B} (m : M S A) (k : A -> M S B) : M S B :=
  fun s => match m s with
           | (Return a, s') => k a s'
           | (Raise e, s') => (Raise e, s')
           end.
Definition gets {S A} (f : S -> A) : M S A := fun s => (Return (f s), s).
Definition modify {S} (f : S -> S) : M S unit := fun s => (Return tt, f s).

(** [try: body finally: fin] -- [fin] always runs; an exception raised by
    [fin] replaces the outcome of [body]. *)
Definition try_finally {S A} (body : M S A) (fin : M S unit) : M S A :=
  fun s => match body s with
           | (r, s') => match fin s' with
                        | (Return _, s'') => (r, s'')
                        | (Raise e, s'') => (Raise e, s'')
                        end
           end.

(** [try: body except: pass] (a bare [except]). *)
Definition try_except_pass {S} (body : M S unit) : M S unit :=
  fun s => match body s with
           | (_, s') => (Return tt, s')
           end.

(** [try: body except <class>: handler], [catches] selecting the class. *)
Definition try_except {S A} (body : M S A) (catches : exn -> bool)
           (handler : exn -> M S A) : M S A :=
  fun s => match body s with
           | (Return a, s') => (Return a, s')
           | (Raise e, s') => if catches e then handler e s' else (Raise e, s')
           end.

Declare Scope py_scope.
Delimit Scope py_scope with py.
Notation "'let*' x ':=' m 'in' k" := (bind m (fun x => k))
  (at level 10, x name, m at level 100, k at level 200) : py_scope.
Notation "m1 ';;;' m2" := (bind m1 (fun _ => m2))
  (at level 100, m2 at level 200, right associativity) : py_scope.

(** *** Text helpers: [str.lower], [str.startswith], [in], [str.replace] *)

Definition is_upper (c : ascii) : bool :=
  let n := nat_of_ascii c in (65 <=? n)%nat && (n <=? 90)%nat.

Definition lower_ascii (c : ascii) : ascii :=
  if is_upper c then ascii_of_nat (nat_of_ascii c + 32) else c.

Fixpoint lower (s : string) : string :=
  match s with
  | EmptyString => EmptyString
  | String c s' => String (lower_ascii c) (lower s')
  end.

Fixpoint startswith (s p : string) {struct p} : bool :=
  match p with
  | EmptyString => true
  | String b p' => match s with
                   | EmptyString => false
                   | String a s' => Ascii.eqb a b && startswith s' p'
                   end
  end.

(** [sub in s] on text: [sub] occurs somewhere in [s]. *)
Fixpoint contains (sub s : string) : bool :=
  startswith s sub ||
  match s with
  | EmptyString => false
  | String _ s' => contains sub s'
  end.

(** Truth value of a text object: non-empty. *)
Definition truthy (s : string) : bool :=
  match s with
  | EmptyString => false
  | String _ _ => true
  end.

(** [s.replace(a, b)] for one-character [a] and [b]. *)
Fixpoint replace_char (a b : ascii) (s : string) : string :=
  match s with
  | EmptyString => EmptyString
  | String c s' => String (if Ascii.eqb c a then b else c) (replace_char a b s')
  end.

(** [s.split(sep)] for a one-character separator: every occurrence cuts,
    so the result has one more field than there are separators. *)
Fixpoint split_from (sep : ascii) (field s : string) : list string :=
  match s with
  | EmptyString => [field]
  | String c s' =>
      if Ascii.eqb c sep then field :: split_from sep EmptyString s'
      else split_from sep (field ++ String c EmptyString) s'
  end.

Definition split (sep : ascii) (s : string) : list string :=
  split_from sep EmptyString s.

(** [NUL in s]: the character that no environment value may hold. *)
Fixpoint has_nul (s : string) : bool :=
  match s with
  | EmptyString => false
  | String c s' => Ascii.eqb c zero || has_nul s'
  end.

(** *** Characters

    Text is held as the bytes that carry it.  Where Python looks at
    characters rather than bytes -- the white space of [str.split()], the
    digit class of [re] -- the text comes as the list of its characters,
    each one the bytes that hold it, and the class is a predicate on one
    character.  How an interpreter cuts bytes into characters and what it
    counts as white space or as a digit differs between Python 2 (bytes,
    ASCII classes) and Python 3 (code points, Unicode classes); both are
    taken from the machine the code runs on. *)
Definition char : Type := string.

(** [s.split()] without a separator: cut at runs of white space, no
    empty fields. *)
Fixpoint split_ws_from (isspace : char -> bool) (field : string)
         (cs : list char) : list string :=
  match cs with
  | [] => if truthy field then [field] else []
  | c :: cs' =>
      if isspace c
      then (if truthy field then field :: split_ws_from isspace EmptyString cs'
            else split_ws_from isspace EmptyString cs')
      else split_ws_from isspace (field ++ c) cs'
  end.

Definition split_ws (isspace : char -> bool) (cs : list char) : list string :=
  split_ws_from isspace EmptyString cs.

(** *** Regular expressions, as far as [re.match] is used

    Matching is by derivatives, one character at a time.  [re.match]
    anchors the pattern at the start of the text and accepts any
    remainder after the match.  [Digit] is the class [\d]. *)
Inductive regex : Type :=
| Void
| Eps
| Chr (c : char)
| Digit
| Cat (r1 r2 : regex)
| Alt (r1 r2 : regex)
| Star (r : regex).

Definition Plus (r : regex) : regex := Cat r (Star r).

Fixpoint nullable (r : regex) : bool :=
  match r with
  | Void => false
  | Eps => true
  | Chr _ => false
  | Digit => false
  | Cat r1 r2 => nullable r1 && nullable r2
  | Alt r1 r2 => nullable r1 || nullable r2
  | Star _ => true
  end.

Fixpoint deriv (digit : char -> bool) (a : char) (r : regex) : regex :=
  match r with
  | Void => Void
  | Eps => Void
  | Chr c => if String.eqb a c then Eps else Void
  | Digit => if digit a then Eps else Void
  | Cat r1 r2 =>
      if nullable r1 then Alt (Cat (deriv digit a r1) r2) (deriv digit a r2)
      else Cat (deriv digit a r1) r2
  | Alt r1 r2 => Alt (deriv digit a r1) (deriv digit a r2)
  | Star r1 => Cat (deriv digit a r1) (Star r1)
  end.

(** [re.match(r, s)] is not [None]. *)
Fixpoint re_match (digit : char -> bool) (r : regex) (s : list char) : bool :=
  nullable r ||
  match s with
  | [] => false
  | a :: s' => re_match digit (deriv digit a r) s'
  end.

(** The whole of [s] matches [r] (what an anchor at both ends asks). *)
Fixpoint re_fullmatch (digit : char -> bool) (r : regex) (s : list char) : bool :=
  match s with
  | [] => nullable r
  | a :: s' => re_fullmatch digit (deriv digit a r) s'
  end.

(** The texts a pattern denotes. *)
Inductive matches (digit : char -> bool) : regex -> list char -> Prop :=
| MEps : matches digit Eps []
| MChr c : matches digit (Chr c) [c]
| MDigit c : digit c = true -> matches digit Digit [c]
| MCat r1 r2 s1 s2 :
    matches digit r1 s1 -> matches digit r2 s2 ->
    matches digit (Cat r1 r2) (s1 ++ s2)%list
| MAltL r1 r2 s : matches digit r1 s -> matches digit (Alt r1 r2) s
| MAltR r1 r2 s : matches digit r2 s -> matches digit (Alt r1 r2) s
| MStar0 r : matches digit (Star r) []
| MStarS r s1 s2 :
    matches digit r s1 -> matches digit (Star r) s2 ->
    matches digit (Star r) (s1 ++ s2)%list.

(** A run of characters of the digit class. *)
Definition all_digits (digit : char -> bool) (s : list char) : bool :=
  forallb digit s.

End Py.
Import Py.
Open Scope py_scope.

(** ** swat/clib.py *)
Module clib.

(** The compiled extension [_pyswat], seen from Python: named entry
    points taking positional and keyword arguments.  A native call can
    read the process environment as it stands at the time of the call. *)
Record native_module : Type := {
  native_entry : string -> list pyval -> list (string * pyval) ->
                 gmap string string -> result pyval
}.

(** A module-level name is unbound, bound to [None], or bound to the
    extension module. *)
Inductive binding : Type :=
| Unbound
| BoundNone
| BoundModule (m : native_module).

Record globals : Type := {
  _pyswat_loaded : bool;
  _pyswat : binding
}.

(** Lines 33-38: the import-time [try: ... except ImportError: pass]. *)
Definition import_clib (import__pyswat : result native_module) : result globals :=
  let g0 := {| _pyswat_loaded := false; _pyswat := Unbound |} in
  match import__pyswat with
  | Return m => Return {| _pyswat_loaded := true; _pyswat := BoundModule m |}
  | Raise (ImportError _) => Return g0
  | Raise e => Raise e
  end.

(** Process state the bridge reads and writes. *)
Record process : Type := {
  environ : gmap string string;
  native_calls : list (string * list pyval * list (string * pyval) * gmap string string)
}.

(** Host identification: [platform.machine()], [sys.platform],
    [os.pathsep]; and which assignments to [os.environ] the platform
    refuses for a reason of its own (a value it cannot encode, one too
    long for Windows). *)
Record host : Type := {
  platform_machine : string;
  sys_platform : string;
  os_pathsep : string;
  os_putenv_refuses : string -> string -> bool
}.

Definition _pyswat_error_message : string :=
  "Could not import import C extension.  This is likely due to " ++
  "the SWAT package being installed from source rather than being " ++
  "compiled. You can try using the REST interface as an alternative.".

Definition _pyswat_error {A} : M process A :=
  raise (ValueError _pyswat_error_message).

(** [_pyswat.<name>] applied to the caller's arguments: resolves the
    global [_pyswat], then enters native code. *)
Definition call__pyswat (g : globals) (name : string) (args : list pyval)
           (kwargs : list (string * pyval)) : M process pyval :=
  match _pyswat g with
  | Unbound => raise (NameError "_pyswat")
  | BoundNone => raise (AttributeError name)
  | BoundModule m =>
      fun p =>
        (native_entry m name args kwargs (environ p),
         {| environ := environ p;
            native_calls := native_calls p ++ [(name, args, kwargs, environ p)] |})
  end.

Definition SW_CASConnection (g : globals) args kwargs : M process pyval :=
  (if negb (_pyswat_loaded g) then _pyswat_error else ret tt) ;;;
  call__pyswat g "SW_CASConnection" args kwargs.

Definition SW_CASValueList (g : globals) args kwargs : M process pyval :=
  (if negb (_pyswat_loaded g) then _pyswat_error else ret tt) ;;;
  call__pyswat g "SW_CASValueList" args kwargs.

Definition SW_CASFormatter (g : globals) args kwargs : M process pyval :=
  (if negb (_pyswat_loaded g) then _pyswat_error else ret tt) ;;;
  call__pyswat g "SW_CASFormatter" args kwargs.

Definition SW_CASConnectionEventWatcher (g : globals) args kwargs : M process pyval :=
  (if negb (_pyswat_loaded g) then _pyswat_error else ret tt) ;;;
  call__pyswat g "SW_CASConnectionEventWatcher" args kwargs.

Definition SW_CASDataBuffer (g : globals) args kwargs : M process pyval :=
  (if negb (_pyswat_loaded g) then _pyswat_error else ret tt) ;;;
  call__pyswat g "SW_CASDataBuffer" args kwargs.

Definition SW_CASError (g : globals) args kwargs : M process pyval :=
  (if negb (_pyswat_loaded g) then _pyswat_error else ret tt) ;;;
  call__pyswat g "SW_CASError" args kwargs.

(** [key in os.environ], [os.environ[key] = value], [del os.environ[key]]. *)
Definition environ_has (key : string) : M process bool :=
  gets (fun p => bool_decide (is_Some (environ p !! key))).

(** An assignment goes through when neither text holds a NUL and the
    platform does not refuse it; otherwise it raises [ValueError] (as
    Python 3 does), and [TypeError] for a value that is not text. *)
Definition putenv_ok (h : host) (key value : string) : bool :=
  negb (has_nul key) && negb (has_nul value) &&
  negb (os_putenv_refuses h key value).

Definition putenv_error (key value : string) : exn :=
  ValueError (if has_nul key || has_nul value
              then "embedded null byte"
              else "illegal environment variable").

Definition environ_setitem (h : host) (key : string) (value : pyval)
  : M process unit :=
  match value with
  | PyStr v =>
      if putenv_ok h key v
      then modify (fun p => {| environ := <[key := v]> (environ p);
                               native_calls := native_calls p |})
      else raise (putenv_error key v)
  | _ => raise (TypeError "str expected")
  end.

Definition environ_delitem (key : string) : M process unit :=
  fun p => match environ p !! key with
           | Some _ => (Return tt, {| environ := delete key (environ p);
                                      native_calls := native_calls p |})
           | None => (Raise (KeyError key), p)
           end.

(** Lines 91-113. *)
Definition InitializeTK (h : host) (g : globals) (args : list pyval)
           (kwargs : list (string * pyval)) : M process pyval :=
  (match _pyswat g with
   | Unbound => raise (NameError "_pyswat")
   | BoundNone => raise (NameError "_import_pyswat")
   | BoundModule _ => ret tt
   end) ;;;
  let* has_tkpath := environ_has "TKPATH" in
  let set_tkpath_env := contains "ppc" (platform_machine h) && negb has_tkpath in
  (if set_tkpath_env
   then match args with
        | a0 :: _ => environ_setitem h "TKPATH" a0
        | [] => ret tt
        end
   else ret tt) ;;;
  try_finally
    (call__pyswat g "InitializeTK" args kwargs)
    ((if set_tkpath_env then environ_delitem "TKPATH" else ret tt) ;;;
     let* has_tkpath' := environ_has "TKPATH" in
     if startswith (lower (sys_platform h)) "win" && negb has_tkpath'
     then environ_setitem h "TKPATH" (PyStr (os_pathsep h))
     else ret tt).

(** A SWIG object, as far as [errorcheck] looks at it. *)
Record handle : Type := {
  getLastErrorMessage : string
}.

Section errorcheck.
(** [a2u] comes from [swat.utils.compat]; it is taken as given. *)
Variable a2u : string -> string -> string.

(** Lines 116-142. *)
Definition errorcheck {A} (expr : A) (obj : option handle) : result A :=
  match obj with
  | Some o =>
      let msg := getLastErrorMessage o in
      if truthy msg then Raise (SWATError (a2u msg "utf-8")) else Return expr
  | None => Return expr
  end.
End errorcheck.

End clib.

(** ** setup.py *)
Module setup.

Definition LIBSWAT_ROOT : string := "gitlab.sas.com/kesmit/go-libswat".
Definition GO_GET_FLAGS : string := "-insecure".
Definition GO_BUILD_FLAGS : string := "".

(** The build description handed to [build_extension]; one Python object,
    appended to in place. *)
Record Extension : Type := {
  name : string;
  sources : list string;
  include_dirs : list string;
  extra_compile_args : list string;
  extra_link_args : list string
}.

(** What lies in a directory: files and directories, each with its
    read-only attribute (on POSIX: no write permission for the user). *)
#[local] Set Warnings "-register-all".
Inductive entry : Type :=
| File (fname : string) (readonly : bool)
| Dir (dname : string) (readonly : bool) (entries : list entry).

(** How a child process ended: it ran and exited with a status, or it
    could not be started (no such program). *)
Inductive exit : Type :=
| Exited (returncode : Z)
| NotStarted (reason : string).

(** What the build step does to the outside, in order. *)
Inductive event : Type :=
| Stderr_write (env : gmap string string) (cmd : list string)
| Check_call (cmd : list string) (cwd : string) (env : gmap string string)
| Mkdtemp (path : string)
| Makedirs (path : string)
| Rmtree (path : string)
| Super_build_extension (ext : Extension).

(** What decides whether the file system lets an entry go. *)
Inductive removal_rule : Type :=
| own_attribute
| parent_permission
| unrestricted.

(** The machine the build runs on, and how it answers.  Answers may
    depend on everything done so far.  [text_chars], [str_isspace] and
    [re_digit] are the interpreter's: the characters of a text, the
    white space of [str.split()], the class [\d] of [re]. *)
Record world : Type := {
  sys_platform : string;
  os_environ : gmap string string;
  os_getcwd : string;
  os_path_join : string -> string -> string;
  os_path_isfile : string -> bool;
  os_path_abspath : string -> string;
  sys_prefix : string;
  sys_version_info : string * string;
  compiler_include_dirs : list string;
  get_ext_fullpath : string -> string;
  tempfile_mkdtemp : list event -> string;
  subprocess_run : list event -> list string -> string -> gmap string string -> exit;
  listdir : list event -> string -> list entry;
  removal : removal_rule;
  text_chars : string -> list char;
  str_isspace : char -> bool;
  re_digit : char -> bool;
  super_build_extension : list event -> Extension -> result unit
}.

Record state : Type := {
  ext : Extension;
  trace : list event;
  staging : gset string
}.

Definition emit (ev : event) : M state unit :=
  modify (fun s => {| ext := ext s; trace := trace s ++ [ev]; staging := staging s |}).

Definition update_ext (f : Extension -> Extension) : M state unit :=
  modify (fun s => {| ext := f (ext s); trace := trace s; staging := staging s |}).

Definition update_staging (f : gset string -> gset string) : M state unit :=
  modify (fun s => {| ext := ext s; trace := trace s; staging := f (staging s) |}).

Definition sources_append (x : string) : M state unit :=
  update_ext (fun e => {| name := name e; sources := sources e ++ [x];
                          include_dirs := include_dirs e;
                          extra_compile_args := extra_compile_args e;
                          extra_link_args := extra_link_args e |}).

Definition include_dirs_append (x : string) : M state unit :=
  update_ext (fun e => {| name := name e; sources := sources e;
                          include_dirs := include_dirs e ++ [x];
                          extra_compile_args := extra_compile_args e;
                          extra_link_args := extra_link_args e |}).

Definition extra_compile_args_append (x : string) : M state unit :=
  update_ext (fun e => {| name := name e; sources := sources e;
                          include_dirs := include_dirs e;
                          extra_compile_args := extra_compile_args e ++ [x];
                          extra_link_args := extra_link_args e |}).

Definition extra_link_args_append (x : string) : M state unit :=
  update_ext (fun e => {| name := name e; sources := sources e;
                          include_dirs := include_dirs e;
                          extra_compile_args := extra_compile_args e;
                          extra_link_args := extra_link_args e ++ [x] |}).

(** [x in l] for a list of text. *)
Definition mem (x : string) (l : list string) : bool :=
  existsb (String.eqb x) l.

(** *** [_check_call] (lines 158-162)

    The command line is echoed to standard error, then the command runs
    with [env] laid over the inherited environment.  A non-zero status
    raises [CalledProcessError]; a program that cannot be started raises
    [OSError]. *)
Definition check_call_outcome (cmd : list string) (e : exit) : result unit :=
  match e with
  | Exited 0 => Return tt
  | Exited code => Raise (CalledProcessError code cmd)
  | NotStarted reason => Raise (OSError reason)
  end.

Definition subprocess_check_call (w : world) (cmd : list string) (cwd : string)
           (env : gmap string string) : M state unit :=
  let* before := gets trace in
  emit (Check_call cmd cwd env) ;;;
  fun s => (check_call_outcome cmd (subprocess_run w before cmd cwd env), s).

Definition _check_call (w : world) (cmd : list string) (cwd : string)
           (env : gmap string string) : M state unit :=
  emit (Stderr_write env cmd) ;;;
  subprocess_check_call w cmd cwd (env ∪ os_environ w).

(** *** [shutil.rmtree(path, onerror=...)]

    Entries are removed children first: files with [os.unlink], the
    emptied directory with [os.rmdir].  A failure is handed to
    [onerror] together with the operation that failed.

    Whether an entry may be removed is for the file system to say.
    Where it follows the entry's own read-only attribute (Windows), an
    entry goes when that attribute is clear; where it follows
    permissions (POSIX), an entry goes when the directory that holds it
    is writable, whatever its own mode; a privileged user is refused
    nothing.  Every directory is taken to be one that can be listed. *)
Definition removable (rule : removal_rule) (parent_writable readonly : bool)
  : bool :=
  match rule with
  | own_attribute => negb readonly
  | parent_permission => parent_writable
  | unrestricted => true
  end.

(** One name in a directory as the file system holds it: the entry, or
    nothing once it is removed. *)
Definition slot : Type := option entry.

Definition ENOENT : string := "No such file or directory".

Definition os_unlink (rule : removal_rule) (parent_writable : bool)
  : M slot unit := fun st =>
  match st with
  | Some (File f ro) =>
      if removable rule parent_writable ro then (Return tt, None)
      else (Raise (OSError f), st)
  | Some (Dir d _ _) => (Raise (OSError d), st)
  | None => (Raise (OSError ENOENT), st)
  end.

Definition os_rmdir (rule : removal_rule) (parent_writable : bool)
  : M slot unit := fun st =>
  match st with
  | Some (Dir d ro []) =>
      if removable rule parent_writable ro then (Return tt, None)
      else (Raise (OSError d), st)
  | Some (Dir d _ (_ :: _)) => (Raise (OSError d), st)
  | Some (File f _) => (Raise (OSError f), st)
  | None => (Raise (OSError ENOENT), st)
  end.

(** [os.chmod(name, stat.S_IWRITE)]: the entry becomes writable. *)
Definition os_chmod_S_IWRITE : M slot unit := fun st =>
  match st with
  | Some (File f _) => (Return tt, Some (File f false))
  | Some (Dir d _ es) => (Return tt, Some (Dir d false es))
  | None => (Raise (OSError ENOENT), st)
  end.

(** What [onerror] is: a piece of code that is given the operation that
    failed, already aimed at the name it failed on, and may also change
    that name's mode.  It acts on the file system through these two
    only, whatever the state behind them. *)
Definition handler : Type :=
  forall S : Type, M S unit -> M S unit -> M S unit.

(** One operation under [try: ... except OSError: onerror(...)]. *)
Definition try_onerror (onerror : handler) (op : M slot unit) : M slot unit :=
  fun st =>
    match op st with
    | (Return _, st') => (Return tt, st')
    | (Raise _, st') => onerror slot os_chmod_S_IWRITE op st'
    end.

(** Removal of a directory's entries one after another; stops at the
    first exception that [onerror] lets out, leaving the rest in place. *)
Fixpoint remove_entries (rm : entry -> result unit * slot)
         (es : list entry) : result unit * list entry :=
  match es with
  | [] => (Return tt, [])
  | e :: es' =>
      match rm e with
      | (Return _, None) => remove_entries rm es'
      | (Return _, Some e') =>
          match remove_entries rm es' with
          | (r, rest) => (r, e' :: rest)
          end
      | (Raise x, None) => (Raise x, es')
      | (Raise x, Some e') => (Raise x, e' :: es')
      end
  end.

(** [parent_writable]: whether the directory that holds [e] is
    writable.  For the entries of a directory that is its own attribute
    at the time they are removed. *)
Fixpoint rmtree (rule : removal_rule) (onerror : handler)
         (parent_writable : bool) (e : entry) : result unit * slot :=
  match e with
  | File _ _ => try_onerror onerror (os_unlink rule parent_writable) (Some e)
  | Dir d ro es =>
      match remove_entries (rmtree rule onerror (negb ro)) es with
      | (Raise x, rest) => (Raise x, Some (Dir d ro rest))
      | (Return _, rest) =>
          try_onerror onerror (os_rmdir rule parent_writable)
                      (Some (Dir d ro rest))
      end
  end.

(** Lines 170-173: the handler given to [rmtree]. *)
Definition err : handler := fun S os_chmod action =>
  os_chmod ;;; action.

(** [rmtree] without a handler lets the failure out. *)
Definition onerror_raise : handler := fun S os_chmod action =>
  action.

(** *** [_tmpdir] (lines 164-174) *)
Definition mkdtemp (w : world) : M state string :=
  let* before := gets trace in
  let tempdir := tempfile_mkdtemp w before in
  emit (Mkdtemp tempdir) ;;;
  update_staging (fun d => {[ tempdir ]} ∪ d) ;;;
  ret tempdir.

(** The tree under a directory that [tempfile.mkdtemp] made: the
    directory itself is the user's, writable, in a writable place. *)
Definition staged_tree (w : world) (before : list event) (path : string)
  : entry :=
  Dir path false (listdir w before path).

Definition shutil_rmtree (w : world) (path : string) (onerror : handler)
  : M state unit :=
  let* before := gets trace in
  emit (Rmtree path) ;;;
  match rmtree (removal w) onerror true (staged_tree w before path) with
  | (Return _, None) => update_staging (fun d => d ∖ {[ path ]})
  | (Return _, Some _) => ret tt
  | (Raise x, None) => update_staging (fun d => d ∖ {[ path ]}) ;;; raise x
  | (Raise x, Some _) => raise x
  end.

Definition _tmpdir {A} (w : world) (body : string -> M state A) : M state A :=
  let* tempdir := mkdtemp w in
  try_finally (body tempdir) (shutil_rmtree w tempdir err).

(** A tree that the file system of [rule] lets go of entry by entry,
    once read-only attributes are cleared: always where the entry's own
    attribute decides, and under permissions when no directory in it is
    read-only. *)
Fixpoint dirs_writable (e : entry) : bool :=
  match e with
  | File _ _ => true
  | Dir _ ro es => negb ro && forallb dirs_writable es
  end.

Definition cleanable (rule : removal_rule) (e : entry) : bool :=
  match rule with
  | parent_permission => dirs_writable e
  | _ => true
  end.

(** What the cleanup of [_tmpdir] finds and does at the end of a body
    that left the trace [before]: its outcome, and what is left of the
    staging directory. *)
Definition cleanup (w : world) (before : list event) (tempdir : string)
  : result unit * slot :=
  rmtree (removal w) err true (staged_tree w before tempdir).

(** The outcome of a [with self._tmpdir()] block whose body ended with
    [r]: an exception of the cleanup takes the place of [r]. *)
Definition after_cleanup {A} (c : result unit * slot) (r : result A)
  : result A :=
  match fst c with
  | Return _ => r
  | Raise x => Raise x
  end.

Definition os_makedirs (path : string) : M state unit :=
  emit (Makedirs path).

(** *** [build_extension] (lines 49-156) *)

Definition go_missing : string :=
  "The Go tools do not appear to be installed.  " ++
  "Make sure that they are installed " ++
  "(see https://golang.org) and that the go " ++
  "command is in your system path.".

Definition swig_missing : string :=
  "SWIG does not appear to be installed.  " ++
  "Make sure that it is installed " ++
  "(see http://www.swig.org) and that the swig " ++
  "command is in your system path.".

Definition is_CalledProcessError (e : exn) : bool :=
  match e with
  | CalledProcessError _ _ => true
  | _ => false
  end.

(** Lines 51-69. *)
Definition check_toolchains (w : world) : M state unit :=
  try_except (_check_call w ["go"; "version"] (os_getcwd w) ∅)
             is_CalledProcessError
             (fun _ => raise (RuntimeError go_missing)) ;;;
  try_except (_check_call w ["swig"; "-version"] (os_getcwd w) ∅)
             is_CalledProcessError
             (fun _ => raise (RuntimeError swig_missing)).

(** Lines 71-77. *)
Inductive profile : Type := win | osx | unix.

Definition classify (raw : string) : profile :=
  let platform := lower raw in
  if startswith platform "win" then win
  else if startswith platform "darwin" then osx
  else unix.

Definition environ_get (w : world) (key default : string) : string :=
  match os_environ w !! key with
  | Some v => v
  | None => default
  end.

(** [s.split()] as the interpreter of [w] does it. *)
Definition str_split (w : world) (s : string) : list string :=
  split_ws (str_isspace w) (text_chars w s).

(** The pattern of line 108; [re_match] anchors it at the start, which
    is all the leading [^] asks for. *)
Definition major_minor : regex :=
  Cat (Plus Digit) (Cat (Chr ".") (Plus Digit)).

(** Lines 105-112. *)
Definition osx_build_target (w : world) (platform : profile)
           (env : gmap string string) : gmap string string :=
  match platform with
  | osx =>
      let plat := split "-" (environ_get w "PLAT" "-10.7-") in
      let env1 :=
        match plat with
        | _ :: plat1 :: _ =>
            if re_match (re_digit w) major_minor (text_chars w plat1)
            then <["MACOSX_DEPLOYMENT_TARGET" := plat1]> env
            else env
        | _ => env
        end in
      if os_path_isfile w "/usr/bin/gcc"
      then <["CC" := "/usr/bin/gcc"]> env1
      else env1
  | _ => env
  end.

(** Lines 80-91: the paths inside the staging directory and the
    environment given to the Go tools. *)
Definition libswat_root (w : world) : string :=
  environ_get w "LIBSWAT_ROOT" LIBSWAT_ROOT.

Definition src_path (w : world) (tempdir : string) : string :=
  os_path_join w tempdir "src".

Definition mod_path (w : world) (tempdir : string) : string :=
  os_path_join w (os_path_join w tempdir "pkg") "mod".

Definition libswat_a (w : world) (tempdir : string) : string :=
  os_path_join w (src_path w tempdir) "libswat.a".

Definition root_path (w : world) (platform : profile) (tempdir : string)
  : string :=
  match platform with
  | win => os_path_join w (src_path w tempdir)
                        (replace_char "/" "\" (libswat_root w))
  | _ => os_path_join w (src_path w tempdir) (libswat_root w)
  end.

Definition go_env (tempdir : string) : gmap string string :=
  <["GOPATH" := tempdir]> (<["GO111MODULE" := "auto"]> ∅).

(** Lines 93-95: the fetch command. *)
Definition go_get (w : world) : list string :=
  ["go"; "get"; "-d"] ++
  List.filter truthy (str_split w (environ_get w "GO_GET_FLAGS" GO_GET_FLAGS)) ++
  [libswat_root w].

(** Lines 96-103. *)
Definition fetch (w : world) (cmd : list string) (src_path : string)
           (env : gmap string string) : M state unit :=
  try_except_pass (_check_call w cmd src_path env) ;;;
  try_except_pass (_check_call w cmd src_path env).

(** Lines 115-117: the interface generator. *)
Definition swig (w : world) (platform : profile) (tempdir : string)
  : list string :=
  ["swig"; "-outdir"; src_path w tempdir; "-python"; "-builtin";
   "-module"; "pyswat"; "-o"; os_path_join w (src_path w tempdir) "pyswat.c";
   os_path_join w (root_path w platform tempdir) "swat.i"].

(** Lines 122-124: the archive build. *)
Definition go_build (w : world) (tempdir : string) : list string :=
  ["go"; "build"; "-buildmode=c-archive"] ++
  List.filter truthy (str_split w (environ_get w "GO_BUILD_FLAGS" GO_BUILD_FLAGS)) ++
  ["-o"; libswat_a w tempdir].

Definition warning_flags : list string :=
  ["-Wno-unused-variable"; "-Wno-unused-label"; "-Wno-unused-function";
   "-Wno-visibility"; "-Wno-strict-prototypes"].

(** Lines 127-137. *)
Definition prepare_link (root_path libswat_a : string) : M state unit :=
  extra_compile_args_append "-Wno-unused-variable" ;;;
  extra_compile_args_append "-Wno-unused-label" ;;;
  extra_compile_args_append "-Wno-unused-function" ;;;
  extra_compile_args_append "-Wno-visibility" ;;;
  extra_compile_args_append "-Wno-strict-prototypes" ;;;
  let* e := gets ext in
  (if negb (mem root_path (include_dirs e))
   then include_dirs_append root_path else ret tt) ;;;
  let* e := gets ext in
  (if negb (mem libswat_a (extra_link_args e))
   then extra_link_args_append libswat_a else ret tt).

(** Lines 139-154: the explicit link command of the [win] profile. *)
Definition gcc_link (w : world) (e : Extension) : list string :=
  let prefix := sys_prefix w in
  let libs := ["-L" ++ os_path_join w prefix "libs";
               "-lpython" ++ fst (sys_version_info w) ++ snd (sys_version_info w)] in
  ["gcc"] ++ sources e ++
  extra_link_args e ++
  ["-D"; "MS_WIN64"; "-O2"] ++
  map (fun x => "-I" ++ x) (include_dirs e) ++
  map (fun x => "-I" ++ x) (compiler_include_dirs w) ++
  extra_compile_args e ++
  libs ++ ["-fpic"; "-shared"] ++
  ["-o"; os_path_abspath w (get_ext_fullpath w (name e))].

(** [build_ext.build_extension(self, ext)], the inherited step. *)
Definition build_ext_build_extension (w : world) : M state unit :=
  let* before := gets trace in
  let* e := gets ext in
  emit (Super_build_extension e) ;;;
  fun s => (super_build_extension w before e, s).

(** Lines 105-156: from the interface generator to the link. *)
Definition generate_and_link (w : world) (platform : profile) (tempdir : string)
           (env : gmap string string) : M state unit :=
  let env := osx_build_target w platform env in
  _check_call w (swig w platform tempdir) (root_path w platform tempdir) env ;;;
  sources_append (os_path_join w (src_path w tempdir) "pyswat.c") ;;;
  _check_call w (go_build w tempdir) (root_path w platform tempdir) env ;;;
  prepare_link (root_path w platform tempdir) (libswat_a w tempdir) ;;;
  match platform with
  | win =>
      let* e := gets ext in
      _check_call w (gcc_link w e) (os_getcwd w) env
  | _ => build_ext_build_extension w
  end.

(** Lines 80-156: what runs inside [with self._tmpdir() as tempdir]. *)
Definition staged_build (w : world) (platform : profile) (tempdir : string)
  : M state unit :=
  os_makedirs (src_path w tempdir) ;;;
  let env := go_env tempdir in
  fetch w (go_get w) (src_path w tempdir) env ;;;
  generate_and_link w platform tempdir env.

Definition build_extension (w : world) : M state unit :=
  check_toolchains w ;;;
  let platform := classify (sys_platform w) in
  _tmpdir w (staged_build w platform).

(** *** Reading a trace *)

(** The runs of command [cmd]. *)
Definition invocations (cmd : list string) (tr : list event) : list event :=
  List.filter (fun ev => match ev with
                         | Check_call c _ _ => bool_decide (c = cmd)
                         | _ => false
                         end) tr.

(** The first probe of [check_toolchains], as run from state [s], and
    the state it leaves. *)
Definition go_probe (w : world) (s : state) : exit :=
  subprocess_run w (trace s ++ [Stderr_write ∅ ["go"; "version"]])%list
                 ["go"; "version"] (os_getcwd w) (∅ ∪ os_environ w).

Definition after_go_probe (w : world) (s : state) : state :=
  {| ext := ext s;
     trace := (trace s ++ [Stderr_write ∅ ["go"; "version"];
                           Check_call ["go"; "version"] (os_getcwd w)
                                      (∅ ∪ os_environ w)])%list;
     staging := staging s |}.

(** The second probe, likewise. *)
Definition swig_probe (w : world) (s : state) : exit :=
  subprocess_run w (trace s ++ [Stderr_write ∅ ["swig"; "-version"]])%list
                 ["swig"; "-version"] (os_getcwd w) (∅ ∪ os_environ w).

Definition after_swig_probe (w : world) (s : state) : state :=
  {| ext := ext s;
     trace := (trace s ++ [Stderr_write ∅ ["swig"; "-version"];
                           Check_call ["swig"; "-version"] (os_getcwd w)
                                      (∅ ∪ os_environ w)])%list;
     staging := staging s |}.

(** What a probe that ended in [e] makes of the build: go on, stop with
    the hint, or let the failed start through. *)
Definition probe_outcome (hint : string) (e : exit) : result unit :=
  match e with
  | Exited 0 => Return tt
  | Exited _ => Raise (RuntimeError hint)
  | NotStarted reason => Raise (OSError reason)
  end.

(** Appending unless present, as lines 133-137 do. *)
Definition guarded_append (x : string) (l : list string) : list string :=
  if mem x l then l else (l ++ [x])%list.

(** A statement that only adds events satisfying [P] to the trace and
    leaves the set of staging directories as it found it. *)
Definition extends (P : event -> Prop) {A} (m : M state A) : Prop :=
  forall s, exists evs,
    trace (snd (m s)) = (trace s ++ evs)%list /\
    Forall P evs /\
    staging (snd (m s)) = staging s.

(** Events of the build proper: anything but creating or removing a
    staging directory. *)
Definition build_event (ev : event) : Prop :=
  match ev with
  | Mkdtemp _ | Rmtree _ => False
  | _ => True
  end.

(** The staging directories created, and those removed, in order. *)
Definition acquired (tr : list event) : list string :=
  omap (fun ev => match ev with Mkdtemp t => Some t | _ => None end) tr.

Definition released (tr : list event) : list string :=
  omap (fun ev => match ev with Rmtree t => Some t | _ => None end) tr.

End setup.

(** ** Concrete hosts used in examples *)
Module scenarios.
Import clib setup.

(** The module state after a successful import of the extension. *)
Definition loaded (m : native_module) : globals :=
  {| _pyswat_loaded := true; _pyswat := BoundModule m |}.

Definition ppc_linux : host :=
  {| platform_machine := "ppc64le"; clib.sys_platform := "linux";
     os_pathsep := ":";
     os_putenv_refuses := fun _ _ => false |}.

(** Windows takes no variable whose name and value are longer than
    32767 characters together. *)
Definition windows_x64 : host :=
  {| platform_machine := "AMD64"; clib.sys_platform := "win32";
     os_pathsep := ";";
     os_putenv_refuses := fun k v =>
       (32767 <? Z.of_nat (String.length k + String.length v + 2))%Z |}.

(** A ppc host running Windows, for the two rules of [InitializeTK]
    together. *)
Definition ppc_windows : host :=
  {| platform_machine := "ppc"; clib.sys_platform := "win32";
     os_pathsep := ";";
     os_putenv_refuses := fun _ _ => false |}.

Definition tk_ok : native_module :=
  {| native_entry := fun _ _ _ env =>
       match env !! "TKPATH" with
       | Some _ => Return PyNone
       | None => Raise (ForeignError "TKPATH")
       end |}.

Definition fresh_process : process :=
  {| environ := <["HOME" := "/root"]> ∅; native_calls := [] |}.

(** Text as Python 3 has it in the C locale: one character per byte (a
    byte above 127 comes as a lone surrogate, which is neither a digit
    nor white space), the digits [0-9], and the white space of ASCII:
    tab to carriage return, the four separators 28 to 31, and blank. *)
Definition byte_chars (s : string) : list char :=
  map (fun c => String c EmptyString) (list_ascii_of_string s).

Definition byte_isdigit (c : char) : bool :=
  match c with
  | String a EmptyString =>
      let n := nat_of_ascii a in (48 <=? n)%nat && (n <=? 57)%nat
  | _ => false
  end.

Definition byte_isspace (c : char) : bool :=
  match c with
  | String a EmptyString =>
      let n := nat_of_ascii a in
      ((9 <=? n)%nat && (n <=? 13)%nat) || ((28 <=? n)%nat && (n <=? 32)%nat)
  | _ => false
  end.

(** What the fetch leaves in the staging directory: sources, and a
    package directory with a read-only file. *)
Definition fetched_tree : list entry :=
  [Dir "src" false [File "pyswat.c" false];
   Dir "pkg" false [Dir "mod" false [File "go.sum" true]]].

(** The same with the package directories read-only, as the Go tools
    leave their module cache. *)
Definition module_cache_tree : list entry :=
  [Dir "src" false [File "pyswat.c" false];
   Dir "pkg" false [Dir "mod" true [File "go.sum" true]]].

(** A build machine: platform string, inherited environment, and how
    each child process ends. *)
Definition machine (platform : string) (env : gmap string string)
           (run : list event -> list string -> string -> gmap string string -> exit)
  : world :=
  {| setup.sys_platform := platform;
     os_environ := env;
     os_getcwd := "/src/python-swat";
     os_path_join := fun a b => a ++ "/" ++ b;
     os_path_isfile := fun _ => false;
     os_path_abspath := fun p => p;
     sys_prefix := "/usr";
     sys_version_info := ("3", "7");
     compiler_include_dirs := [];
     get_ext_fullpath := fun n => "build/lib/" ++ n ++ ".so";
     tempfile_mkdtemp := fun _ => "/tmp/tmpq1w2e3";
     subprocess_run := run;
     listdir := fun _ _ => fetched_tree;
     removal := match classify platform with
                | win => own_attribute
                | _ => parent_permission
                end;
     text_chars := byte_chars;
     str_isspace := byte_isspace;
     re_digit := byte_isdigit;
     super_build_extension := fun _ _ => Return tt |}.

(** The same machine with other contents in its staging directory. *)
Definition with_listdir (w : world) (l : list entry) : world :=
  {| setup.sys_platform := setup.sys_platform w;
     os_environ := os_environ w;
     os_getcwd := os_getcwd w;
     os_path_join := os_path_join w;
     os_path_isfile := os_path_isfile w;
     os_path_abspath := os_path_abspath w;
     sys_prefix := sys_prefix w;
     sys_version_info := sys_version_info w;
     compiler_include_dirs := compiler_include_dirs w;
     get_ext_fullpath := get_ext_fullpath w;
     tempfile_mkdtemp := tempfile_mkdtemp w;
     subprocess_run := subprocess_run w;
     listdir := fun _ _ => l;
     removal := removal w;
     text_chars := text_chars w;
     str_isspace := str_isspace w;
     re_digit := re_digit w;
     super_build_extension := super_build_extension w |}.

Definition all_succeed : list event -> list string -> string ->
                         gmap string string -> exit :=
  fun _ _ _ _ => Exited 0.

(** No [go] on the path; everything else runs. *)
Definition go_not_installed : list event -> list string -> string ->
                              gmap string string -> exit :=
  fun _ cmd _ _ =>
    match cmd with
    | "go" :: _ => NotStarted "No such file or directory: 'go'"
    | _ => Exited 0
    end.

(** [Extension('_pyswat', [])] in a process that has built nothing yet. *)
Definition initial : state :=
  {| ext := {| name := "_pyswat"; sources := []; include_dirs := [];
               extra_compile_args := []; extra_link_args := [] |};
     trace := [];
     staging := ∅ |}.

End scenarios.

(** ** Vocabulary for further properties *)
Module facts.
Import clib setup.

(** The six constructor forwarders, each with the name of the native
    entry point it stands for. *)
Definition forwarders
  : list (string * (globals -> list pyval -> list (string * pyval) ->
                    M process pyval)) :=
  [("SW_CASConnection", SW_CASConnection);
   ("SW_CASValueList", SW_CASValueList);
   ("SW_CASFormatter", SW_CASFormatter);
   ("SW_CASConnectionEventWatcher", SW_CASConnectionEventWatcher);
   ("SW_CASDataBuffer", SW_CASDataBuffer);
   ("SW_CASError", SW_CASError)].

(** The process after one more native call has been recorded. *)
Definition called (p : process) (name : string) (args : list pyval)
           (kwargs : list (string * pyval)) : process :=
  {| environ := environ p;
     native_calls := native_calls p ++ [(name, args, kwargs, environ p)] |}.

(** Lines 108-111, at the end of a call that found [TKPATH] unset and
    leaves it unset: on Windows the sentinel is written; [r] is the
    outcome up to there, [p] the process. *)
Definition write_sentinel (h : host) (r : result pyval) (p : process)
  : result pyval * process :=
  if startswith (lower (clib.sys_platform h)) "win"
  then if putenv_ok h "TKPATH" (os_pathsep h)
       then (r, {| environ := <["TKPATH" := os_pathsep h]> (environ p);
                   native_calls := native_calls p |})
       else (Raise (putenv_error "TKPATH" (os_pathsep h)), p)
  else (r, p).

(** Whether the first positional argument is a text that [os.environ]
    takes as the value of [key]. *)
Definition first_is_value (h : host) (key : string) (args : list pyval) : bool :=
  match args with
  | PyStr a :: _ => putenv_ok h key a
  | _ => false
  end.

(** The process state at the stations of a build that got past both
    probes: the staging directory chosen, the state once it exists, and
    the state once [src] is made and the fetch has been tried twice. *)
Definition probed (w : world) (s : state) : state :=
  after_swig_probe w (after_go_probe w s).

Definition tempdir_of (w : world) (s : state) : string :=
  tempfile_mkdtemp w (trace (probed w s)).

Definition staged (w : world) (s : state) : state :=
  {| ext := ext s;
     trace := (trace (probed w s) ++ [Mkdtemp (tempdir_of w s)])%list;
     staging := {[ tempdir_of w s ]} ∪ staging s |}.

Definition fetched (w : world) (s : state) : state :=
  let t := tempdir_of w s in
  {| ext := ext s;
     trace := (trace (staged w s) ++
               [Makedirs (src_path w t);
                Stderr_write (go_env t) (go_get w);
                Check_call (go_get w) (src_path w t) (go_env t ∪ os_environ w);
                Stderr_write (go_env t) (go_get w);
                Check_call (go_get w) (src_path w t) (go_env t ∪ os_environ w)])%list;
     staging := {[ t ]} ∪ staging s |}.

(** The environment overrides in force from the generator on. *)
Definition build_env (w : world) (s : state) : gmap string string :=
  osx_build_target w (classify (setup.sys_platform w)) (go_env (tempdir_of w s)).

(** The interface generator's command in this build, the two events its
    run leaves, and how it ends. *)
Definition generator (w : world) (s : state) : list string :=
  swig w (classify (setup.sys_platform w)) (tempdir_of w s).

Definition generator_events (w : world) (s : state) : list event :=
  [Stderr_write (build_env w s) (generator w s);
   Check_call (generator w s)
              (root_path w (classify (setup.sys_platform w)) (tempdir_of w s))
              (build_env w s ∪ os_environ w)].

Definition generator_exit (w : world) (s : state) : exit :=
  subprocess_run w
    (trace (fetched w s) ++ [Stderr_write (build_env w s) (generator w s)])%list
    (generator w s)
    (root_path w (classify (setup.sys_platform w)) (tempdir_of w s))
    (build_env w s ∪ os_environ w).

(** The generator is there but fails on the interface file. *)
Definition generator_fails : list event -> list string -> string ->
                             gmap string string -> exit :=
  fun _ cmd _ _ =>
    match cmd with
    | "swig" :: "-outdir" :: _ => Exited 1
    | _ => Exited 0
    end.

(** [swig -version] exits with status 2. *)
Definition swig_probe_fails : list event -> list string -> string ->
                              gmap string string -> exit :=
  fun _ cmd _ _ =>
    match cmd with
    | ["swig"; "-version"] => Exited 2
    | _ => Exited 0
    end.

(** The variables the build step itself puts into a command's
    environment. *)
Definition overrides : list string :=
  ["GOPATH"; "GO111MODULE"; "MACOSX_DEPLOYMENT_TARGET"; "CC"].

(** A command run with the Go workspace confined to [tempdir] and every
    variable the build does not override inherited as it is. *)
Definition isolated (w : world) (tempdir : string) (ev : event) : Prop :=
  match ev with
  | Check_call _ _ env =>
      env !! "GOPATH" = Some tempdir /\
      env !! "GO111MODULE" = Some "auto" /\
      forall k, k ∉ overrides -> env !! k = os_environ w !! k
  | _ => True
  end.

(** Traces in which every command that goes through [_check_call] is
    announced on standard error just before, with the same command line,
    and runs with the announced overrides laid over the inherited
    environment.  The inherited [build_ext.build_extension] is one event
    of its own: the compiler and linker it starts are its business and
    are not [Check_call] events. *)
Inductive echoed (w : world) : list event -> Prop :=
| echoed_nil : echoed w []
| echoed_run env cmd cwd rest :
    echoed w rest ->
    echoed w (Stderr_write env cmd :: Check_call cmd cwd (env ∪ os_environ w) :: rest)
| echoed_Mkdtemp t rest : echoed w rest -> echoed w (Mkdtemp t :: rest)
| echoed_Makedirs t rest : echoed w rest -> echoed w (Makedirs t :: rest)
| echoed_Rmtree t rest : echoed w rest -> echoed w (Rmtree t :: rest)
| echoed_Super e rest : echoed w rest -> echoed w (Super_build_extension e :: rest).

(** A statement that only adds a run of events satisfying [Q]. *)
Definition adds (Q : list event -> Prop) {A} (m : M state A) : Prop :=
  forall s, exists evs, trace (snd (m s)) = (trace s ++ evs)%list /\ Q evs.

(** Events by kind. *)
Definition inherited_step (ev : event) : Prop :=
  match ev with
  | Super_build_extension _ => True
  | _ => False
  end.

(** A command of the build step's own, handed to [_check_call], with
    [program] as its first word. *)
Definition runs (program : string) (ev : event) : Prop :=
  match ev with
  | Check_call (p :: _) _ _ => p = program
  | _ => False
  end.

(** The same machine with its child processes ending differently. *)
Definition with_run (w : world)
           (run : list event -> list string -> string -> gmap string string -> exit)
  : world :=
  {| setup.sys_platform := setup.sys_platform w;
     os_environ := os_environ w;
     os_getcwd := os_getcwd w;
     os_path_join := os_path_join w;
     os_path_isfile := os_path_isfile w;
     os_path_abspath := os_path_abspath w;
     sys_prefix := sys_prefix w;
     sys_version_info := sys_version_info w;
     compiler_include_dirs := compiler_include_dirs w;
     get_ext_fullpath := get_ext_fullpath w;
     tempfile_mkdtemp := tempfile_mkdtemp w;
     subprocess_run := run;
     listdir := listdir w;
     removal := removal w;
     text_chars := text_chars w;
     str_isspace := str_isspace w;
     re_digit := re_digit w;
     super_build_extension := super_build_extension w |}.

(** Exactly the command [target] fails, whenever it is run; the rest
    runs. *)
Definition fails_on (target : list string)
  : list event -> list string -> string -> gmap string string -> exit :=
  fun _ cmd _ _ => if bool_decide (cmd = target) then Exited 1 else Exited 0.

(** The state once the generator has run and its output has been added
    to the sources, and how the archive build then ends. *)
Definition generated (w : world) (s : state) : state :=
  {| ext := {| name := name (ext s);
               sources := (sources (ext s) ++
                           [os_path_join w (src_path w (tempdir_of w s))
                                         "pyswat.c"])%list;
               include_dirs := include_dirs (ext s);
               extra_compile_args := extra_compile_args (ext s);
               extra_link_args := extra_link_args (ext s) |};
     trace := (trace (fetched w s) ++ generator_events w s)%list;
     staging := {[ tempdir_of w s ]} ∪ staging s |}.

Definition archive_exit (w : world) (s : state) : exit :=
  subprocess_run w
    (trace (generated w s) ++
     [Stderr_write (build_env w s) (go_build w (tempdir_of w s))])%list
    (go_build w (tempdir_of w s))
    (root_path w (classify (setup.sys_platform w)) (tempdir_of w s))
    (build_env w s ∪ os_environ w).

(** The archive build fails; everything before it runs. *)
Definition archive_build_fails : list event -> list string -> string ->
                                 gmap string string -> exit :=
  fun _ cmd _ _ =>
    match cmd with
    | "go" :: "build" :: _ => Exited 2
    | _ => Exited 0
    end.

(** One build description continues another: same name, and every list
    begins with what the other one holds, in the same order. *)
Definition continues (e e' : Extension) : Prop :=
  name e' = name e /\
  sources e `prefix_of` sources e' /\
  include_dirs e `prefix_of` include_dirs e' /\
  extra_compile_args e `prefix_of` extra_compile_args e' /\
  extra_link_args e `prefix_of` extra_link_args e'.

(** A statement that leaves a continuation of the build description it
    found. *)
Definition grows {A} (m : M state A) : Prop :=
  forall s, continues (ext s) (ext (snd (m s))).

(** A Mac on which [PLAT] is set. *)
Definition mac_with_PLAT (plat : string) : world :=
  scenarios.machine "darwin" (<["PLAT" := plat]> ∅) scenarios.all_succeed.


End facts.

(** * Properties *)

#[local] Set Warnings "-clear-no-such-hyp".

#[local] Arguments String.append !s1 s2 / : simpl nomatch.

Import clib scenarios.

(** ** The runtime bridge *)

Ltac run_py :=
  unfold bind, ret, raise, gets, modify, try_finally, try_except,
    try_except_pass; simpl.

(** C1: [errorcheck] hands [expr] back when there is no handle or the
    handle's last-error message is empty, and otherwise raises [SWATError]
    with the decoded message, whatever [expr] is. *)
Theorem errorcheck_protocol (a2u : string -> string -> string) {A : Type}
        (expr : A) (obj : option handle) :
  ((obj = None \/ exists o, obj = Some o /\ getLastErrorMessage o = "") ->
   errorcheck a2u expr obj = Return expr) /\
  (forall o, obj = Some o -> getLastErrorMessage o <> "" ->
   errorcheck a2u expr obj = Raise (SWATError (a2u (getLastErrorMessage o) "utf-8"))).
Proof.
  split.
  - intros [-> | (o & -> & Hmsg)]; [reflexivity|].
    unfold errorcheck. now rewrite Hmsg.
  - intros o -> Hmsg. unfold errorcheck.
    destruct (getLastErrorMessage o) as [|c msg]; [congruence | reflexivity].
Qed.

Lemma errorcheck_protocol_witness :
  errorcheck (fun msg _ => msg) 42%Z (Some {| getLastErrorMessage := "" |})
    = Return 42%Z /\
  errorcheck (fun msg _ => msg) 42%Z
             (Some {| getLastErrorMessage := "connection refused" |})
    = Raise (SWATError "connection refused").
Proof.
  split.
  - apply (proj1 (errorcheck_protocol (fun msg _ => msg) 42%Z
                    (Some {| getLastErrorMessage := "" |}))).
    right. eexists. split; reflexivity.
  - apply (proj2 (errorcheck_protocol (fun msg _ => msg) 42%Z
                    (Some {| getLastErrorMessage := "connection refused" |}))
                 {| getLastErrorMessage := "connection refused" |} eq_refl).
    simpl. discriminate.
Defined.

(** After a failed import every constructor forwarder raises the
    [ValueError] of [_pyswat_error] and leaves the process untouched. *)
Lemma forwarders_unavailable (g : globals) args kwargs (p : process) :
  _pyswat_loaded g = false ->
  SW_CASConnection g args kwargs p = (Raise (ValueError _pyswat_error_message), p) /\
  SW_CASValueList g args kwargs p = (Raise (ValueError _pyswat_error_message), p) /\
  SW_CASFormatter g args kwargs p = (Raise (ValueError _pyswat_error_message), p) /\
  SW_CASConnectionEventWatcher g args kwargs p
    = (Raise (ValueError _pyswat_error_message), p) /\
  SW_CASDataBuffer g args kwargs p = (Raise (ValueError _pyswat_error_message), p) /\
  SW_CASError g args kwargs p = (Raise (ValueError _pyswat_error_message), p).
Proof.
  intros H.
  unfold SW_CASConnection, SW_CASValueList, SW_CASFormatter,
    SW_CASConnectionEventWatcher, SW_CASDataBuffer, SW_CASError.
  rewrite H. repeat split; reflexivity.
Qed.

(** C2, where the code parts from it: with the extension missing,
    importing the module succeeds and each of the six forwarders raises
    the [ValueError] of [_pyswat_error] without entering native code, on
    every call; [InitializeTK], however, looks up the unbound global
    [_pyswat] and raises [NameError] instead. *)
Theorem InitializeTK_after_failed_import (msg : string) :
  exists g,
    import_clib (Raise (ImportError msg)) = Return g /\
    (forall args kwargs p,
        SW_CASConnection g args kwargs p
          = (Raise (ValueError _pyswat_error_message), p) /\
        SW_CASValueList g args kwargs p
          = (Raise (ValueError _pyswat_error_message), p) /\
        SW_CASFormatter g args kwargs p
          = (Raise (ValueError _pyswat_error_message), p) /\
        SW_CASConnectionEventWatcher g args kwargs p
          = (Raise (ValueError _pyswat_error_message), p) /\
        SW_CASDataBuffer g args kwargs p
          = (Raise (ValueError _pyswat_error_message), p) /\
        SW_CASError g args kwargs p
          = (Raise (ValueError _pyswat_error_message), p)) /\
    (forall h args kwargs p,
        InitializeTK h g args kwargs p = (Raise (NameError "_pyswat"), p)).
Proof.
  eexists. split; [reflexivity|]. split.
  - intros. by apply forwarders_unavailable.
  - intros. reflexivity.
Qed.

Ltac run_tk h :=
  unfold InitializeTK;
  let windows := fresh "windows" in
  let ppc := fresh "ppc" in
  remember (startswith (lower (clib.sys_platform h)) "win") as windows;
  remember (contains "ppc" (platform_machine h)) as ppc;
  unfold bind, ret, raise, gets, modify, try_finally, call__pyswat,
    environ_has, environ_setitem, environ_delitem; simpl.

#[local] Arguments putenv_ok : simpl never.
#[local] Arguments putenv_error : simpl never.

Lemma environ_has_true (p : process) (v : string) :
  environ p !! "TKPATH" = Some v ->
  bool_decide (is_Some (environ p !! "TKPATH")) = true.
Proof. intros H. apply bool_decide_eq_true_2. by exists v. Qed.

Lemma InitializeTK_preset_run (h : host) (m : native_module)
      (args : list pyval) kwargs (p : process) (v : string) :
  environ p !! "TKPATH" = Some v ->
  InitializeTK h (loaded m) args kwargs p =
    (native_entry m "InitializeTK" args kwargs (environ p),
     facts.called p "InitializeTK" args kwargs).
Proof.
  intros Hset. run_tk h.
  repeat (rewrite ?(environ_has_true p v Hset), ?andb_false_r; simpl).
  destruct (native_entry m _ _ _ _); reflexivity.
Qed.

(** Every way [InitializeTK] can go when the extension is loaded and
    [TKPATH] is unset. *)
Lemma InitializeTK_unset_run (h : host) (m : native_module)
      (args : list pyval) kwargs (p : process) :
  environ p !! "TKPATH" = None ->
  InitializeTK h (loaded m) args kwargs p =
    if contains "ppc" (platform_machine h)
    then match args with
         | [] => (Raise (KeyError "TKPATH"),
                  facts.called p "InitializeTK" args kwargs)
         | PyStr a :: _ =>
             if putenv_ok h "TKPATH" a
             then facts.write_sentinel h
                    (native_entry m "InitializeTK" args kwargs
                                  (<["TKPATH" := a]> (environ p)))
                    {| environ := environ p;
                       native_calls :=
                         native_calls p ++
                         [("InitializeTK", args, kwargs,
                           <["TKPATH" := a]> (environ p))] |}
             else (Raise (putenv_error "TKPATH" a), p)
         | _ :: _ => (Raise (TypeError "str expected"), p)
         end
    else facts.write_sentinel h
           (native_entry m "InitializeTK" args kwargs (environ p))
           (facts.called p "InitializeTK" args kwargs).
Proof.
  intros Hun. unfold facts.write_sentinel. run_tk h. rewrite Hun. simpl.
  rewrite andb_true_r. destruct ppc; simpl.
  - destruct args as [|[| |a|] args]; simpl; try reflexivity.
    + now rewrite Hun.
    + destruct (putenv_ok h "TKPATH" a); simpl; [|reflexivity].
      rewrite lookup_insert_eq. simpl.
      rewrite (delete_insert_id _ _ _ Hun), Hun. simpl.
      destruct windows; simpl;
        [destruct (putenv_ok h "TKPATH" (os_pathsep h)); simpl|];
        try destruct (native_entry m _ _ _ _); reflexivity.
  - rewrite Hun. simpl.
    destruct windows; simpl;
      [destruct (putenv_ok h "TKPATH" (os_pathsep h)); simpl|];
      try destruct (native_entry m _ _ _ _); reflexivity.
Qed.

(** C6: with [TKPATH] unset and a first positional argument that an
    environment variable can hold, on a ppc machine the native call runs
    with [TKPATH] set to that argument (elsewhere it runs with the
    environment as it is); the variable is removed again whether the
    native call returns or raises, so the environment is as before --
    except on Windows, where the path-separator sentinel is then written.
    The caller gets the native call's own outcome.  A first argument
    that [os.environ] refuses (a text with a NUL in it) stops the call
    on a ppc machine before native code is entered, with the process as
    it was. *)
Theorem InitializeTK_scoped_TKPATH (h : host) (m : native_module) (a : string)
        (args : list pyval) kwargs (p : process) :
  environ p !! "TKPATH" = None ->
  (startswith (lower (sys_platform h)) "win" = true ->
   putenv_ok h "TKPATH" (os_pathsep h) = true) ->
  let during := if contains "ppc" (platform_machine h)
                then <["TKPATH" := a]> (environ p)
                else environ p in
  let out := InitializeTK h (loaded m) (PyStr a :: args) kwargs p in
  (putenv_ok h "TKPATH" a = true ->
   fst out = native_entry m "InitializeTK" (PyStr a :: args) kwargs during /\
   native_calls (snd out) =
     (native_calls p ++ [("InitializeTK", PyStr a :: args, kwargs, during)])%list /\
   environ (snd out) =
     if startswith (lower (sys_platform h)) "win"
     then <["TKPATH" := os_pathsep h]> (environ p)
     else environ p) /\
  (putenv_ok h "TKPATH" a = false ->
   contains "ppc" (platform_machine h) = true ->
   out = (Raise (putenv_error "TKPATH" a), p)) /\
  (has_nul a = true -> putenv_ok h "TKPATH" a = false).
Proof.
  intros Hun Hsep during out. subst out during.
  rewrite (InitializeTK_unset_run h m _ kwargs p Hun).
  unfold facts.write_sentinel, facts.called.
  split; [|split].
  - intros Hok. rewrite Hok.
    destruct (startswith (lower (sys_platform h)) "win");
      [rewrite (Hsep eq_refl)|];
      destruct (contains "ppc" (platform_machine h)); simpl; done.
  - intros Hno Hppc. now rewrite Hppc, Hno.
  - intros Hnul. unfold putenv_ok. rewrite Hnul. reflexivity.
Qed.

Lemma InitializeTK_scoped_TKPATH_witness :
  let out := InitializeTK ppc_windows (loaded tk_ok) [PyStr "C:/tk"] [] fresh_process in
  fst out = Return PyNone /\
  environ (snd out) = <["TKPATH" := ";"]> (environ fresh_process).
Proof.
  pose proof (InitializeTK_scoped_TKPATH ppc_windows tk_ok "C:/tk" [] []
                fresh_process eq_refl (fun _ => eq_refl)) as (Hok & _ & _).
  destruct (Hok eq_refl) as (Hres & _ & Henv).
  split; [exact Hres | exact Henv].
Defined.

(** A NUL in the path: the assignment to [os.environ] raises, the
    native call is not made. *)
Example InitializeTK_NUL_path :
  InitializeTK ppc_linux (loaded tk_ok) [PyStr (String zero "tk")] []
               fresh_process
  = (Raise (ValueError "embedded null byte"), fresh_process).
Proof. reflexivity. Qed.

(** On Windows the sentinel is left behind; the native call itself ran
    without [TKPATH]. *)
Example InitializeTK_windows_sentinel :
  let out := InitializeTK windows_x64 (loaded tk_ok) [PyStr "C:/tk"] [] fresh_process in
  fst out = Raise (ForeignError "TKPATH") /\
  environ (snd out) !! "TKPATH" = Some ";".
Proof. split; reflexivity. Qed.

(** C10: with no positional argument on a ppc machine and [TKPATH] unset,
    the native call is made with the environment as it was, and then the
    cleanup raises [KeyError]; whatever the native call returned or raised
    does not reach the caller. *)
Theorem InitializeTK_no_args_KeyError (h : host) (m : native_module) kwargs
        (p : process) :
  contains "ppc" (platform_machine h) = true ->
  environ p !! "TKPATH" = None ->
  InitializeTK h (loaded m) [] kwargs p =
    (Raise (KeyError "TKPATH"),
     {| environ := environ p;
        native_calls :=
          (native_calls p ++ [("InitializeTK", [], kwargs, environ p)])%list |}).
Proof.
  intros Hppc Hun. unfold InitializeTK. run_py. rewrite Hppc, Hun. simpl.
  unfold environ_delitem; simpl. now rewrite Hun.
Qed.

Lemma InitializeTK_no_args_KeyError_witness :
  fst (InitializeTK ppc_linux (loaded tk_ok) [] [] fresh_process)
    = Raise (KeyError "TKPATH").
Proof.
  rewrite (InitializeTK_no_args_KeyError ppc_linux tk_ok [] fresh_process
             eq_refl eq_refl).
  reflexivity.
Defined.

(** ** Text *)

Example lower_WIN32 : lower "WIN32" = "win32".
Proof. reflexivity. Qed.

Example split_default_PLAT : split "-" "-10.7-" = [""; "10.7"; ""].
Proof. reflexivity. Qed.

Example split_no_separator : split "-" "macosx" = ["macosx"].
Proof. reflexivity. Qed.

Example split_ws_flags :
  split_ws byte_isspace (byte_chars "  -insecure   -u ") = ["-insecure"; "-u"].
Proof. reflexivity. Qed.

Example split_ws_empty : split_ws byte_isspace (byte_chars "") = [].
Proof. reflexivity. Qed.

Example contains_ppc : contains "ppc" "ppc64le" = true /\ contains "ppc" "x86_64" = false.
Proof. split; reflexivity. Qed.

Example replace_char_root :
  replace_char "/" "\" "gitlab.sas.com/kesmit/go-libswat"
  = "gitlab.sas.com\kesmit\go-libswat".
Proof. reflexivity. Qed.

Lemma startswith_app (s p : string) :
  startswith s p = true <-> exists rest, s = p ++ rest.
Proof.
  revert s. induction p as [|b p IH]; intros s; simpl.
  - split; [intros _; by exists s | done].
  - destruct s as [|a s]; simpl.
    + split; [done | intros [rest Hrest]; discriminate].
    + rewrite andb_true_iff, IH. split.
      * intros [Hab [rest ->]]. apply Ascii.eqb_eq in Hab as ->. by exists rest.
      * intros [rest Hrest]. injection Hrest as -> ->.
        split; [apply Ascii.eqb_refl | by exists rest].
Qed.

Lemma startswith_app_false (s p : string) :
  startswith s p = false <-> ~ exists rest, s = p ++ rest.
Proof.
  rewrite <- startswith_app. destruct (startswith s p); split; congruence.
Qed.

Lemma append_empty_r (s : string) : s ++ "" = s.
Proof. induction s as [|c s IH]; simpl; [reflexivity | now rewrite IH]. Qed.

Lemma append_assoc (s1 s2 s3 : string) : (s1 ++ s2) ++ s3 = s1 ++ (s2 ++ s3).
Proof. induction s1 as [|c s1 IH]; simpl; [reflexivity | now rewrite IH]. Qed.

Lemma append_eq_empty (s1 s2 : string) : s1 ++ s2 = "" -> s1 = "" /\ s2 = "".
Proof. destruct s1; simpl; [tauto | discriminate]. Qed.

Lemma append_eq_cons (s1 s2 : string) (a : ascii) (s : string) :
  s1 ++ s2 = String a s ->
  (s1 = "" /\ s2 = String a s) \/ (exists s1', s1 = String a s1' /\ s = s1' ++ s2).
Proof.
  destruct s1 as [|c s1]; simpl; intros H.
  - left. tauto.
  - right. injection H as -> <-. by exists s1.
Qed.

(** ** Patterns: the matcher decides the language of the pattern *)

Lemma list_app_eq_cons {A} (s1 s2 : list A) (a : A) (s : list A) :
  (s1 ++ s2)%list = a :: s ->
  (s1 = [] /\ s2 = a :: s) \/
  (exists s1', s1 = a :: s1' /\ s = (s1' ++ s2)%list).
Proof.
  destruct s1 as [|c s1]; simpl; intros H.
  - left. tauto.
  - right. injection H as -> <-. by exists s1.
Qed.

Section patterns.
Variable digit : char -> bool.

Lemma matches_cat_inv (r1 r2 : regex) (s : list char) :
  matches digit (Cat r1 r2) s ->
  exists s1 s2, s = (s1 ++ s2)%list /\ matches digit r1 s1 /\ matches digit r2 s2.
Proof. inversion 1; subst; eauto. Qed.

Lemma matches_alt_inv (r1 r2 : regex) (s : list char) :
  matches digit (Alt r1 r2) s -> matches digit r1 s \/ matches digit r2 s.
Proof. inversion 1; subst; eauto. Qed.

Lemma matches_chr_inv (c : char) (s : list char) :
  matches digit (Chr c) s -> s = [c].
Proof. inversion 1; subst; eauto. Qed.

Lemma matches_digit_inv (s : list char) :
  matches digit Digit s -> exists c, s = [c] /\ digit c = true.
Proof. inversion 1; subst; eauto. Qed.

Lemma nullable_matches (r : regex) : nullable r = true <-> matches digit r [].
Proof.
  induction r as [| | c | | r1 IH1 r2 IH2 | r1 IH1 r2 IH2 | r IH]; simpl.
  - split; [discriminate | inversion 1].
  - split; [constructor | reflexivity].
  - split; [discriminate | inversion 1].
  - split; [discriminate | inversion 1].
  - rewrite andb_true_iff, IH1, IH2. split.
    + intros [H1 H2]. change (@nil char) with (@nil char ++ [])%list.
      by constructor.
    + intros (s1 & s2 & Heq & H1 & H2)%matches_cat_inv. symmetry in Heq.
      apply List.app_eq_nil in Heq as [-> ->]. tauto.
  - rewrite orb_true_iff, IH1, IH2. split.
    + intros [H | H]; [by apply MAltL | by apply MAltR].
    + apply matches_alt_inv.
  - split; [constructor | reflexivity].
Qed.

Lemma star_cons (r : regex) (a : char) (s : list char) :
  matches digit (Star r) (a :: s) ->
  exists s1 s2, s = (s1 ++ s2)%list /\
                matches digit r (a :: s1) /\ matches digit (Star r) s2.
Proof.
  remember (Star r) as r' eqn:Hr. remember (a :: s) as t eqn:Ht.
  intros H. revert s Hr Ht.
  induction H as [| | | | | | | r0 s1 s2 H1 _ H2 IH2]; intros s0 Hr Ht;
    try discriminate.
  injection Hr as ->.
  apply list_app_eq_cons in Ht as [[-> ->] | (s1' & -> & ->)].
  - by apply IH2.
  - by exists s1', s2.
Qed.

Lemma deriv_matches (r : regex) (a : char) (s : list char) :
  matches digit (deriv digit a r) s <-> matches digit r (a :: s).
Proof.
  revert s.
  induction r as [| | c | | r1 IH1 r2 IH2 | r1 IH1 r2 IH2 | r IH]; intros s; simpl.
  - split; inversion 1.
  - split; inversion 1.
  - destruct (String.eqb_spec a c) as [-> | Hne].
    + split; inversion 1; subst; constructor.
    + split; inversion 1; subst; congruence.
  - destruct (digit a) eqn:Hd.
    + split; inversion 1; subst; by constructor.
    + split; inversion 1; subst; congruence.
  - assert (Hl : matches digit (Cat (deriv digit a r1) r2) s ->
                 matches digit (Cat r1 r2) (a :: s)).
    { intros (s1 & s2 & -> & H1 & H2)%matches_cat_inv.
      change (a :: (s1 ++ s2)%list) with ((a :: s1) ++ s2)%list.
      constructor; [by apply IH1 | done]. }
    split.
    + intros H.
      destruct (nullable r1) eqn:Hn; [|by apply Hl].
      apply matches_alt_inv in H as [H | H]; [by apply Hl|].
      change (a :: s) with ([] ++ a :: s)%list.
      constructor; [by apply nullable_matches | by apply IH2].
    + intros (s1 & s2 & Heq & H1 & H2)%matches_cat_inv. symmetry in Heq.
      apply list_app_eq_cons in Heq as [[-> ->] | (s1' & -> & ->)].
      * apply nullable_matches in H1. rewrite H1.
        apply MAltR. by apply IH2.
      * assert (matches digit (Cat (deriv digit a r1) r2) (s1' ++ s2)%list)
          by (constructor; [by apply IH1 | done]).
        destruct (nullable r1); [by apply MAltL | done].
  - split.
    + intros [H | H]%matches_alt_inv;
        [apply MAltL; by apply IH1 | apply MAltR; by apply IH2].
    + intros [H | H]%matches_alt_inv;
        [apply MAltL; by apply IH1 | apply MAltR; by apply IH2].
  - split.
    + intros (s1 & s2 & -> & H1 & H2)%matches_cat_inv.
      change (a :: (s1 ++ s2)%list) with ((a :: s1) ++ s2)%list.
      constructor; [by apply IH | done].
    + intros H. apply star_cons in H as (s1 & s2 & -> & H1 & H2).
      constructor; [by apply IH | done].
Qed.

Lemma re_fullmatch_matches (r : regex) (s : list char) :
  re_fullmatch digit r s = true <-> matches digit r s.
Proof.
  revert r. induction s as [|a s IH]; intros r; simpl.
  - apply nullable_matches.
  - rewrite IH. apply deriv_matches.
Qed.

(** [re_match] accepts exactly the texts that begin with a match. *)
Lemma re_match_prefix (r : regex) (s : list char) :
  re_match digit r s = true <->
  exists s1 s2, s = (s1 ++ s2)%list /\ matches digit r s1.
Proof.
  revert r. induction s as [|a s IH]; intros r; simpl.
  - rewrite orb_false_r, nullable_matches. split.
    + intros H. by exists [], [].
    + intros (s1 & s2 & Heq & H). symmetry in Heq.
      apply List.app_eq_nil in Heq as [-> _]. done.
  - rewrite orb_true_iff, nullable_matches, IH. split.
    + intros [H | (s1 & s2 & -> & H)].
      * by exists [], (a :: s).
      * exists (a :: s1), s2. split; [done | by apply deriv_matches].
    + intros (s1 & s2 & Heq & H). symmetry in Heq.
      apply list_app_eq_cons in Heq as [[-> ->] | (s1' & -> & ->)].
      * by left.
      * right. exists s1', s2. split; [done | by apply deriv_matches].
Qed.

Lemma star_digit_matches (s : list char) :
  matches digit (Star Digit) s <-> all_digits digit s = true.
Proof.
  unfold all_digits. split.
  - remember (Star Digit) as r eqn:Hr. intros H. revert Hr.
    induction H as [| | | | | | | r0 s1 s2 H1 _ H2 IH2]; intros Hr;
      try discriminate; [reflexivity|].
    injection Hr as ->. apply matches_digit_inv in H1 as (c & -> & Hc). simpl.
    rewrite Hc, IH2 by reflexivity. reflexivity.
  - induction s as [|c s IH]; simpl; [constructor|].
    rewrite andb_true_iff. intros [Hc Hs].
    change (c :: s) with ([c] ++ s)%list.
    constructor; [by constructor | by apply IH].
Qed.

Lemma plus_digit_matches (s : list char) :
  matches digit (Plus Digit) s <-> s <> [] /\ all_digits digit s = true.
Proof.
  unfold Plus. split.
  - intros (s1 & s2 & -> & H1 & H2)%matches_cat_inv.
    apply matches_digit_inv in H1 as (c & -> & Hc).
    apply star_digit_matches in H2. unfold all_digits in *. simpl.
    by rewrite Hc, H2.
  - destruct s as [|c s]; [tauto|]. unfold all_digits. simpl.
    rewrite andb_true_iff. intros [_ [Hc Hs]].
    change (c :: s) with ([c] ++ s)%list.
    constructor; [by constructor | by apply star_digit_matches].
Qed.

End patterns.

(** ** The build step *)

Import setup.

Lemma major_minor_matches (digit : char -> bool) (s : list char) :
  matches digit major_minor s <->
  exists major minor, s = (major ++ "." :: minor)%list /\
    major <> [] /\ minor <> [] /\
    all_digits digit major = true /\ all_digits digit minor = true.
Proof.
  unfold major_minor. split.
  - intros (s1 & s2 & -> & H1 & H2)%matches_cat_inv.
    apply matches_cat_inv in H2 as (s3 & s4 & -> & H3 & H4).
    apply matches_chr_inv in H3 as ->.
    apply plus_digit_matches in H1 as [? ?].
    apply plus_digit_matches in H4 as [? ?].
    by exists s1, s4.
  - intros (major & minor & -> & ? & ? & ? & ?).
    constructor; [by apply plus_digit_matches|].
    change ("." :: minor) with (["."] ++ minor)%list.
    constructor; [constructor | by apply plus_digit_matches].
Qed.

(** C8: the profile is a function of the raw platform string alone: a
    string that (after case folding) begins with [win] is [win], one that
    begins with [darwin] is [osx], and every other string is [unix]. *)
Theorem classify_by_prefix (raw : string) :
  ((exists rest, lower raw = "win" ++ rest) -> classify raw = win) /\
  ((exists rest, lower raw = "darwin" ++ rest) -> classify raw = osx) /\
  (~ (exists rest, lower raw = "win" ++ rest) ->
   ~ (exists rest, lower raw = "darwin" ++ rest) -> classify raw = unix).
Proof.
  unfold classify. repeat split.
  - intros H. apply startswith_app in H. now rewrite H.
  - intros H. destruct H as [rest H].
    assert (Hw : startswith (lower raw) "win" = false) by now rewrite H.
    assert (Hd : startswith (lower raw) "darwin" = true) by now rewrite H.
    now rewrite Hw, Hd.
  - intros Hw Hd.
    apply startswith_app_false in Hw. apply startswith_app_false in Hd.
    now rewrite Hw, Hd.
Qed.

Lemma classify_by_prefix_witness :
  classify "win32" = win /\ classify "darwin" = osx /\ classify "linux2" = unix.
Proof.
  split; [|split].
  - apply (proj1 (classify_by_prefix "win32")). by exists "32".
  - apply (proj1 (proj2 (classify_by_prefix "darwin"))). by exists "".
  - apply (proj2 (proj2 (classify_by_prefix "linux2")));
      intros [rest H]; discriminate.
Defined.

(** *** The macOS deployment target *)

Example re_match_plain :
  re_match byte_isdigit major_minor (byte_chars "10.7") = true.
Proof. reflexivity. Qed.

Example re_match_trailing :
  re_match byte_isdigit major_minor (byte_chars "10.7abc") = true.
Proof. reflexivity. Qed.

Example re_match_no_minor :
  re_match byte_isdigit major_minor (byte_chars "10.") = false.
Proof. reflexivity. Qed.

Example re_match_leading :
  re_match byte_isdigit major_minor (byte_chars "x10.7") = false.
Proof. reflexivity. Qed.

Example re_fullmatch_trailing :
  re_fullmatch byte_isdigit major_minor (byte_chars "10.7abc") = false.
Proof. reflexivity. Qed.

Lemma re_match_major_minor (digit : char -> bool) (v : list char) :
  re_match digit major_minor v = true <->
  exists major minor tail, v = (major ++ "." :: minor ++ tail)%list /\
    major <> [] /\ minor <> [] /\
    all_digits digit major = true /\ all_digits digit minor = true.
Proof.
  rewrite re_match_prefix. split.
  - intros (s1 & s2 & -> & (major & minor & -> & H)%major_minor_matches).
    exists major, minor, s2. split; [|exact H].
    now rewrite <- app_assoc.
  - intros (major & minor & tail & -> & H).
    exists (major ++ "." :: minor)%list, tail. split.
    + now rewrite <- app_assoc.
    + apply major_minor_matches. by exists major, minor.
Qed.

Lemma osx_build_target_lookup (w : world) (env : gmap string string) :
  osx_build_target w osx env !! "MACOSX_DEPLOYMENT_TARGET" =
    match split "-" (environ_get w "PLAT" "-10.7-") with
    | _ :: plat1 :: _ =>
        if re_match (re_digit w) major_minor (text_chars w plat1)
        then Some plat1
        else env !! "MACOSX_DEPLOYMENT_TARGET"
    | _ => env !! "MACOSX_DEPLOYMENT_TARGET"
    end.
Proof.
  unfold osx_build_target.
  destruct (os_path_isfile w "/usr/bin/gcc");
    [rewrite lookup_insert_ne by discriminate|];
    destruct (split "-" (environ_get w "PLAT" "-10.7-")) as [|f0 [|plat1 rest]];
    try reflexivity;
    destruct (re_match (re_digit w) major_minor (text_chars w plat1));
    try reflexivity; apply lookup_insert_eq.
Qed.

(** C9, as the code has it: on the [osx] profile the deployment target is
    set exactly when [PLAT], cut at [-], has a second field that begins
    with digits, a dot and digits -- digits being the characters of the
    pattern's class [\d], as the interpreter that runs the build has it:
    [0] to [9] under Python 2, every Unicode decimal digit under Python 3.
    The field may go on after that, and the whole field becomes the
    value.  On the other profiles the environment is left as it is. *)
Theorem deployment_target_prefix_rule (w : world) (env : gmap string string)
        (v : string) :
  env !! "MACOSX_DEPLOYMENT_TARGET" = None ->
  (osx_build_target w osx env !! "MACOSX_DEPLOYMENT_TARGET" = Some v <->
   exists first rest major minor tail,
     split "-" (environ_get w "PLAT" "-10.7-") = first :: v :: rest /\
     text_chars w v = (major ++ "." :: minor ++ tail)%list /\
     major <> [] /\ minor <> [] /\
     all_digits (re_digit w) major = true /\
     all_digits (re_digit w) minor = true) /\
  osx_build_target w win env = env /\
  osx_build_target w unix env = env.
Proof.
  intros Hnone. split; [|split; reflexivity].
  rewrite osx_build_target_lookup.
  destruct (split "-" (environ_get w "PLAT" "-10.7-")) as [|f0 [|plat1 rest]].
  - rewrite Hnone. split; [discriminate | intros (? & ? & ? & ? & ? & ? & _); discriminate].
  - rewrite Hnone. split; [discriminate | intros (? & ? & ? & ? & ? & ? & _); discriminate].
  - destruct (re_match (re_digit w) major_minor (text_chars w plat1)) eqn:Hm.
    + apply re_match_major_minor in Hm as (major & minor & tail & Hv & H).
      split.
      * intros [= <-]. by exists f0, rest, major, minor, tail.
      * intros (? & ? & ? & ? & ? & [= _ <- _] & _). reflexivity.
    + rewrite Hnone. split; [discriminate|].
      intros (? & ? & major & minor & tail & [= _ <- _] & H).
      assert (re_match (re_digit w) major_minor (text_chars w plat1) = true) as Hm'
          by (apply re_match_major_minor; by exists major, minor, tail).
      congruence.
Qed.

Lemma deployment_target_prefix_rule_witness :
  osx_build_target (machine "darwin" ∅ all_succeed) osx ∅
    !! "MACOSX_DEPLOYMENT_TARGET" = Some "10.7".
Proof.
  apply (proj1 (deployment_target_prefix_rule
                  (machine "darwin" ∅ all_succeed) ∅ "10.7" (lookup_empty _))).
  exists "", [""], ["1"; "0"], ["7"], []. repeat split; discriminate.
Defined.

(** C9 as stated fails: a second field with text after the version, such
    as [10.7abc], is not of the form digits-dot-digits, yet it is taken as
    the deployment target. *)
Lemma deployment_target_not_exact :
  ~ (forall (w : world) (field : string),
        nth_error (split "-" (environ_get w "PLAT" "-10.7-")) 1 = Some field ->
        re_fullmatch (re_digit w) major_minor (text_chars w field) = false ->
        osx_build_target w osx ∅ !! "MACOSX_DEPLOYMENT_TARGET" = None).
Proof.
  intros H.
  specialize (H (machine "darwin" (<["PLAT" := "macosx-10.7abc-x86_64"]> ∅) all_succeed)
                "10.7abc" eq_refl eq_refl).
  rewrite osx_build_target_lookup in H. vm_compute in H. discriminate.
Qed.

(** The digits need not be ASCII: on an interpreter whose [\d] takes
    the characters [d1], [d2] and [d3], a field made of [d1 d2 . d3] sets
    the target just as [10.7] does. *)
Lemma deployment_target_other_digits (w : world) (first v : string)
      (rest : list string) (d1 d2 d3 : char) :
  split "-" (environ_get w "PLAT" "-10.7-") = first :: v :: rest ->
  text_chars w v = [d1; d2; "."; d3] ->
  re_digit w d1 = true -> re_digit w d2 = true -> re_digit w d3 = true ->
  osx_build_target w osx ∅ !! "MACOSX_DEPLOYMENT_TARGET" = Some v.
Proof.
  intros Hsplit Hchars H1 H2 H3.
  rewrite osx_build_target_lookup, Hsplit, Hchars.
  assert (Hm : re_match (re_digit w) major_minor [d1; d2; "."; d3] = true).
  { apply re_match_major_minor. exists [d1; d2], [d3], [].
    unfold all_digits. simpl. rewrite H1, H2, H3. by repeat split. }
  now rewrite Hm.
Qed.

(** *** Running a command *)

Lemma _check_call_run (w : world) (cmd : list string) (cwd : string)
      (env : gmap string string) (s : state) :
  _check_call w cmd cwd env s =
    (check_call_outcome cmd
       (subprocess_run w (trace s ++ [Stderr_write env cmd])%list cmd cwd
                       (env ∪ os_environ w)),
     {| ext := ext s;
        trace := (trace s ++ [Stderr_write env cmd;
                              Check_call cmd cwd (env ∪ os_environ w)])%list;
        staging := staging s |}).
Proof.
  unfold _check_call, subprocess_check_call, emit. run_py.
  rewrite <- app_assoc. simpl.
  destruct (check_call_outcome cmd _); reflexivity.
Qed.

Lemma fetch_run (w : world) (cmd : list string) (src_path : string)
      (env : gmap string string) (s : state) :
  fetch w cmd src_path env s =
    (Return tt,
     {| ext := ext s;
        trace := (trace s ++
                  [Stderr_write env cmd;
                   Check_call cmd src_path (env ∪ os_environ w);
                   Stderr_write env cmd;
                   Check_call cmd src_path (env ∪ os_environ w)])%list;
        staging := staging s |}).
Proof.
  unfold fetch, bind, try_except_pass.
  rewrite _check_call_run. rewrite _check_call_run. simpl.
  now rewrite <- app_assoc.
Qed.

Lemma fetch_invocations (w : world) (cmd : list string) (src_path : string)
      (env : gmap string string) (s : state) :
  invocations cmd (trace (snd (fetch w cmd src_path env s))) =
    (invocations cmd (trace s) ++
     [Check_call cmd src_path (env ∪ os_environ w);
      Check_call cmd src_path (env ∪ os_environ w)])%list.
Proof.
  rewrite fetch_run. simpl. unfold invocations.
  rewrite List.filter_app. simpl.
  rewrite bool_decide_eq_true_2 by reflexivity. reflexivity.
Qed.

(** *** What a statement adds to the trace *)

Section extends.
Context (P : event -> Prop).

Lemma extends_ret {A} (a : A) : extends P (ret a).
Proof. intros s. exists []. simpl. by rewrite app_nil_r. Qed.

Lemma extends_raise {A} (e : exn) : extends P (@raise state A e).
Proof. intros s. exists []. simpl. by rewrite app_nil_r. Qed.

Lemma extends_gets {A} (f : state -> A) : extends P (gets f).
Proof. intros s. exists []. simpl. by rewrite app_nil_r. Qed.

Lemma extends_pure {A} (r : result A) : extends P (fun s => (r, s)).
Proof. intros s. exists []. simpl. by rewrite app_nil_r. Qed.

Lemma extends_update_ext (f : Extension -> Extension) : extends P (update_ext f).
Proof. intros s. exists []. simpl. by rewrite app_nil_r. Qed.

Lemma extends_emit (ev : event) : P ev -> extends P (emit ev).
Proof. intros H s. exists [ev]. simpl. repeat split; by repeat constructor. Qed.

Lemma extends_bind {A B} (m : M state A) (k : A -> M state B) :
  extends P m -> (forall a, extends P (k a)) -> extends P (bind m k).
Proof.
  intros Hm Hk s. unfold bind.
  destruct (Hm s) as (evs1 & Ht1 & HP1 & Hs1).
  destruct (m s) as [[a|e] s1]; simpl in *.
  - destruct (Hk a s1) as (evs2 & Ht2 & HP2 & Hs2).
    exists (evs1 ++ evs2)%list. rewrite Ht2, Ht1, Hs2, Hs1, app_assoc.
    repeat split. by apply Forall_app.
  - by exists evs1.
Qed.

Lemma extends_try_except_pass (m : M state unit) :
  extends P m -> extends P (try_except_pass m).
Proof.
  intros Hm s. unfold try_except_pass.
  destruct (Hm s) as (evs & Ht & HP & Hs).
  destruct (m s) as [r s1]. by exists evs.
Qed.

Lemma extends_try_except {A} (m : M state A) (catches : exn -> bool)
      (handler : exn -> M state A) :
  extends P m -> (forall e, extends P (handler e)) ->
  extends P (try_except m catches handler).
Proof.
  intros Hm Hh s. unfold try_except.
  destruct (Hm s) as (evs1 & Ht1 & HP1 & Hs1).
  destruct (m s) as [[a|e] s1]; simpl in *; [by exists evs1|].
  destruct (catches e); [|by exists evs1].
  destruct (Hh e s1) as (evs2 & Ht2 & HP2 & Hs2).
  exists (evs1 ++ evs2)%list. rewrite Ht2, Ht1, Hs2, Hs1, app_assoc.
  repeat split. by apply Forall_app.
Qed.

Lemma extends__check_call (w : world) (cmd : list string) (cwd : string)
      (env : gmap string string) :
  P (Stderr_write env cmd) -> P (Check_call cmd cwd (env ∪ os_environ w)) ->
  extends P (_check_call w cmd cwd env).
Proof.
  intros H1 H2 s. rewrite _check_call_run. simpl.
  eexists. repeat split. by repeat constructor.
Qed.
End extends.

Ltac extends_step :=
  first
    [ apply extends_bind; [|intros ?]
    | apply extends_ret
    | apply extends_raise
    | apply extends_gets
    | apply extends_update_ext
    | apply extends_pure
    | apply extends_try_except_pass
    | apply extends_try_except; [|intros ?]
    | apply extends__check_call; exact I
    | apply extends_emit; exact I
    | match goal with
      | |- extends _ (if ?b then _ else _) => destruct b
      | |- extends _ (match ?x with _ => _ end) => destruct x
      end ].

Lemma check_toolchains_extends (w : world) :
  extends build_event (check_toolchains w).
Proof. unfold check_toolchains. repeat extends_step. Qed.

Lemma staged_build_extends (w : world) (platform : profile) (tempdir : string) :
  extends build_event (staged_build w platform tempdir).
Proof.
  unfold staged_build, generate_and_link, fetch, prepare_link, os_makedirs,
    sources_append,
    extra_compile_args_append, include_dirs_append, extra_link_args_append,
    build_ext_build_extension.
  repeat extends_step.
Qed.

Lemma generate_and_link_starts (w : world) (platform : profile)
      (tempdir : string) (env : gmap string string) (s : state) :
  let env' := osx_build_target w platform env in
  exists evs,
    trace (snd (generate_and_link w platform tempdir env s)) =
      (trace s ++
       [Stderr_write env' (swig w platform tempdir);
        Check_call (swig w platform tempdir) (root_path w platform tempdir)
                   (env' ∪ os_environ w)] ++ evs)%list.
Proof.
  intros env'. unfold generate_and_link. fold env'. unfold bind at 1.
  rewrite _check_call_run.
  destruct (check_call_outcome _ _) as [[]|e]; simpl.
  - match goal with
    | |- context [snd (?m ?s1)] =>
        assert (Hrest : extends (fun _ => True) m)
    end.
    { unfold prepare_link, sources_append, extra_compile_args_append,
        include_dirs_append, extra_link_args_append, build_ext_build_extension.
      repeat extends_step. }
    match goal with
    | |- context [snd (_ ?s1)] => destruct (Hrest s1) as (evs & Hevs & _)
    end.
    exists evs. rewrite Hevs. simpl. now rewrite <- app_assoc.
  - by exists [].
Qed.

(** C3, as the code has it: the fetch command is run twice, with the same
    arguments, whatever the first run does; neither failure gets out, so
    the step always ends normally, and in the staged build the interface
    generator is run next. *)
Theorem fetch_runs_twice (w : world) (cmd : list string) (src_path : string)
        (env : gmap string string) (s : state) :
  fetch w cmd src_path env s =
    (Return tt,
     {| ext := ext s;
        trace := (trace s ++
                  [Stderr_write env cmd;
                   Check_call cmd src_path (env ∪ os_environ w);
                   Stderr_write env cmd;
                   Check_call cmd src_path (env ∪ os_environ w)])%list;
        staging := staging s |}) /\
  invocations cmd (trace (snd (fetch w cmd src_path env s))) =
    (invocations cmd (trace s) ++
     [Check_call cmd src_path (env ∪ os_environ w);
      Check_call cmd src_path (env ∪ os_environ w)])%list /\
  (forall platform tempdir,
      let env' := osx_build_target w platform (go_env tempdir) in
      exists evs,
        trace (snd (staged_build w platform tempdir s)) =
          (trace s ++
           [Makedirs (setup.src_path w tempdir);
            Stderr_write (go_env tempdir) (go_get w);
            Check_call (go_get w) (setup.src_path w tempdir)
                       (go_env tempdir ∪ os_environ w);
            Stderr_write (go_env tempdir) (go_get w);
            Check_call (go_get w) (setup.src_path w tempdir)
                       (go_env tempdir ∪ os_environ w);
            Stderr_write env' (swig w platform tempdir);
            Check_call (swig w platform tempdir) (root_path w platform tempdir)
                       (env' ∪ os_environ w)] ++ evs)%list).
Proof.
  split; [apply fetch_run|]. split; [apply fetch_invocations|].
  intros platform tempdir env'.
  unfold staged_build, bind, os_makedirs, emit, modify. rewrite fetch_run.
  destruct (generate_and_link_starts w platform tempdir (go_env tempdir)
              {| ext := ext s;
                 trace := ((trace s ++ [Makedirs (setup.src_path w tempdir)]) ++
                  [Stderr_write (go_env tempdir) (go_get w);
                   Check_call (go_get w) (setup.src_path w tempdir)
                              (go_env tempdir ∪ os_environ w);
                   Stderr_write (go_env tempdir) (go_get w);
                   Check_call (go_get w) (setup.src_path w tempdir)
                              (go_env tempdir ∪ os_environ w)])%list;
                 staging := staging s |}) as (evs & Hevs).
  exists evs. simpl in *. rewrite Hevs. now rewrite <- !app_assoc.
Qed.

(** C3 as stated fails: when the first attempt succeeds the command is
    still run a second time. *)
Lemma fetch_retries_after_success :
  ~ (forall (w : world) (cmd : list string) (src_path : string)
            (env : gmap string string) (s : state),
        subprocess_run w (trace s ++ [Stderr_write env cmd])%list cmd src_path
                       (env ∪ os_environ w) = Exited 0 ->
        length (invocations cmd (trace (snd (fetch w cmd src_path env s)))) =
        S (length (invocations cmd (trace s)))).
Proof.
  intros H.
  specialize (H (machine "linux" ∅ all_succeed)
                (go_get (machine "linux" ∅ all_succeed))
                "/tmp/tmpq1w2e3/src" (go_env "/tmp/tmpq1w2e3") initial eq_refl).
  rewrite fetch_invocations in H. simpl in H. discriminate.
Qed.

(** *** Removing the staging directory *)

(** Induction on a tree of entries. *)
Lemma entry_nested_ind (P : entry -> Prop) :
  (forall f ro, P (File f ro)) ->
  (forall d ro es, Forall P es -> P (Dir d ro es)) ->
  forall e, P e.
Proof.
  intros HF HD. fix IH 1. intros [f ro | d ro es].
  - apply HF.
  - apply HD. induction es as [|e es IHes]; constructor; [apply IH | exact IHes].
Qed.

(** With the handler of [_tmpdir], [rmtree] removes a tree and raises
    nothing wherever the entry's own attribute decides, read-only
    entries included, and under permissions when no directory of the
    tree is read-only (read-only files do not matter there). *)
Lemma rmtree_err_removes (rule : removal_rule) :
  forall (e : entry) (parent_writable : bool),
    cleanable rule e = true ->
    (rule = parent_permission -> parent_writable = true) ->
    rmtree rule err parent_writable e = (Return tt, None).
Proof.
  induction e as [f ro | d ro es IHes] using entry_nested_ind; intros pw Hc Hpw.
  - destruct rule; [destruct ro; reflexivity | | reflexivity].
    rewrite (Hpw eq_refl). reflexivity.
  - simpl.
    assert (Hces : Forall (fun e => cleanable rule e = true) es /\
                   (rule = parent_permission -> negb ro = true)).
    { destruct rule; simpl in Hc;
        [split; [|discriminate] | | split; [|discriminate]].
      - clear. induction es; by constructor.
      - apply andb_true_iff in Hc as [Hro Hes].
        split; [|by intros _].
        clear -Hes. induction es as [|e es IH]; [constructor|].
        simpl in Hes. apply andb_true_iff in Hes as [? ?].
        constructor; [done | by apply IH].
      - clear. induction es; by constructor. }
    destruct Hces as [Hces Hro]. clear Hc.
    assert (Hes : remove_entries (rmtree rule err (negb ro)) es = (Return tt, [])).
    { induction es as [|e es IH]; simpl; [reflexivity|].
      inversion IHes as [|? ? He Hrest]; subst.
      inversion Hces as [|? ? Hce Hcrest]; subst.
      rewrite (He (negb ro) Hce Hro). by apply IH. }
    rewrite Hes.
    destruct rule; [destruct ro; reflexivity | | reflexivity].
    rewrite (Hpw eq_refl). reflexivity.
Qed.

(** Where the entry's own attribute decides, the handler is what makes
    this work: without it one read-only file is enough to make [rmtree]
    raise and leave the directory behind. *)
Example rmtree_plain_fails :
  rmtree own_attribute onerror_raise true
         (Dir "/tmp/tmpq1w2e3" false [File "go.sum" true]) =
    (Raise (OSError "go.sum"),
     Some (Dir "/tmp/tmpq1w2e3" false [File "go.sum" true])).
Proof. reflexivity. Qed.

(** Under permissions the handler does not help with a read-only
    directory: the file in it is made writable, the retry fails as the
    first attempt did, and the failure comes out of [rmtree] with the
    rest of the tree in place. *)
Example rmtree_readonly_dir_fails :
  rmtree parent_permission err true (Dir "/tmp/tmpq1w2e3" false module_cache_tree) =
    (Raise (OSError "go.sum"),
     Some (Dir "/tmp/tmpq1w2e3" false
               [Dir "pkg" false [Dir "mod" true [File "go.sum" false]]])).
Proof. reflexivity. Qed.

#[local] Arguments rmtree : simpl never.

Lemma cleanup_removes (w : world) (before : list event) (tempdir : string) :
  cleanable (removal w) (staged_tree w before tempdir) = true ->
  cleanup w before tempdir = (Return tt, None).
Proof. intros Hc. unfold cleanup. by apply rmtree_err_removes. Qed.

Lemma shutil_rmtree_run (w : world) (path : string) (s : state) :
  shutil_rmtree w path err s =
    (fst (cleanup w (trace s) path),
     {| ext := ext s;
        trace := (trace s ++ [Rmtree path])%list;
        staging := match snd (cleanup w (trace s) path) with
                   | None => staging s ∖ {[ path ]}
                   | Some _ => staging s
                   end |}).
Proof.
  unfold shutil_rmtree, cleanup. run_py.
  destruct (rmtree _ _ _ _) as [[[]|x] [rest|]]; reflexivity.
Qed.

Lemma build_events_acquire_nothing (evs : list event) :
  Forall build_event evs -> acquired evs = [] /\ released evs = [].
Proof.
  induction 1 as [|ev evs Hev _ [IHa IHr]]; [done|].
  unfold acquired, released in *.
  destruct ev; simpl in *; tauto.
Qed.

Lemma acquired_app (l1 l2 : list event) :
  acquired (l1 ++ l2) = (acquired l1 ++ acquired l2)%list.
Proof. apply omap_app. Qed.

Lemma released_app (l1 l2 : list event) :
  released (l1 ++ l2) = (released l1 ++ released l2)%list.
Proof. apply omap_app. Qed.

#[local] Arguments acquired : simpl never.
#[local] Arguments released : simpl never.

Lemma acquired_Mkdtemp (t : string) (l : list event) :
  acquired (Mkdtemp t :: l) = t :: acquired l.
Proof. reflexivity. Qed.

Lemma acquired_Rmtree (t : string) (l : list event) :
  acquired (Rmtree t :: l) = acquired l.
Proof. reflexivity. Qed.

Lemma released_Mkdtemp (t : string) (l : list event) :
  released (Mkdtemp t :: l) = released l.
Proof. reflexivity. Qed.

Lemma released_Rmtree (t : string) (l : list event) :
  released (Rmtree t :: l) = t :: released l.
Proof. reflexivity. Qed.

(** The scoped workspace: created, handed to the body, removed.  What
    comes out is the body's outcome, unless the cleanup raises. *)
Lemma _tmpdir_run {A} (w : world) (body : string -> M state A) (s : state) :
  let tempdir := tempfile_mkdtemp w (trace s) in
  let s1 := {| ext := ext s;
               trace := (trace s ++ [Mkdtemp tempdir])%list;
               staging := {[ tempdir ]} ∪ staging s |} in
  let s2 := snd (body tempdir s1) in
  let c := cleanup w (trace s2) tempdir in
  _tmpdir w body s =
    (after_cleanup c (fst (body tempdir s1)),
     {| ext := ext s2;
        trace := (trace s2 ++ [Rmtree tempdir])%list;
        staging := match snd c with
                   | None => staging s2 ∖ {[ tempdir ]}
                   | Some _ => staging s2
                   end |}).
Proof.
  unfold _tmpdir, mkdtemp, try_finally, bind, gets, emit, update_staging,
    modify, ret, after_cleanup. simpl.
  destruct (body _ _) as [r s2]. rewrite shutil_rmtree_run. simpl.
  destruct (fst (cleanup w (trace s2) _)) as [[]|x]; reflexivity.
Qed.

(** C7, as the code has it: in every run of the build step -- whatever
    the body does, and whether it returns or raises -- a staging
    directory that was created is handed to [rmtree] exactly once, as the
    last thing the step does.  With the handler of [_tmpdir], which
    clears the read-only attribute of the entry that would not go and
    retries, [rmtree] removes the whole tree and raises nothing wherever
    an entry's own attribute is what holds it (Windows), read-only
    entries included, and under POSIX permissions as long as no directory
    of the tree is read-only; the staging directory is then gone. *)
Theorem workspace_released_once (w : world) (s : state) :
  (forall (rule : removal_rule) (e : entry),
      cleanable rule e = true -> rmtree rule err true e = (Return tt, None)) /\
  exists evs,
    trace (snd (build_extension w s)) = (trace s ++ evs)%list /\
    released evs = acquired evs /\
    length (acquired evs) <= 1 /\
    (forall t, t ∈ acquired evs -> last evs = Some (Rmtree t)) /\
    ((forall before t, cleanable (removal w) (staged_tree w before t) = true) ->
     staging (snd (build_extension w s)) = staging s ∖ list_to_set (acquired evs)).
Proof.
  split; [intros rule e Hc; by apply rmtree_err_removes|].
  unfold build_extension, bind.
  destruct (check_toolchains_extends w s) as (evs0 & Ht0 & HP0 & Hs0).
  destruct (build_events_acquire_nothing _ HP0) as [Ha0 Hr0].
  destruct (check_toolchains w s) as [[[]|e] s0]; simpl in *.
  - rewrite _tmpdir_run. simpl.
    set (t := tempfile_mkdtemp w (trace s0)).
    set (s1 := {| ext := ext s0; trace := (trace s0 ++ [Mkdtemp t])%list;
                  staging := {[ t ]} ∪ staging s0 |}).
    destruct (staged_build_extends w (classify (sys_platform w)) t s1)
      as (evsb & Htb & HPb & Hsb).
    destruct (build_events_acquire_nothing _ HPb) as [Hab Hrb].
    exists ((evs0 ++ [Mkdtemp t] ++ evsb) ++ [Rmtree t])%list.
    rewrite Hsb. rewrite Htb at 1. subst s1. simpl. rewrite Ht0, Hs0.
    rewrite !acquired_app, !released_app.
    rewrite acquired_Mkdtemp, acquired_Rmtree, released_Mkdtemp, released_Rmtree.
    rewrite Ha0, Hr0, Hab, Hrb.
    simpl. repeat split.
    + by rewrite <- !app_assoc.
    + lia.
    + intros t' ->%list_elem_of_singleton. by rewrite last_snoc.
    + intros Hclean. rewrite cleanup_removes by apply Hclean. simpl.
      clear. set_solver.
  - exists evs0. rewrite Ha0, Hr0, Hs0. simpl.
    split; [exact Ht0|]. split; [reflexivity|]. split; [lia|].
    split; [intros t Ht; by apply elem_of_nil in Ht|].
    intros _. clear. set_solver.
Qed.

Lemma workspace_released_once_witness :
  rmtree own_attribute err true (Dir "/tmp/tmpq1w2e3" false module_cache_tree)
    = (Return tt, None) /\
  exists evs,
    trace (snd (build_extension (machine "win32" ∅ all_succeed) initial)) = evs /\
    released evs = acquired evs /\
    staging (snd (build_extension (machine "win32" ∅ all_succeed) initial))
      = staging initial ∖ list_to_set (acquired evs).
Proof.
  destruct (workspace_released_once (machine "win32" ∅ all_succeed) initial)
    as (Hrm & evs & Ht & Hrel & _ & _ & Hgone).
  split; [apply (Hrm own_attribute); reflexivity|].
  exists evs. split; [exact Ht|]. split; [exact Hrel|].
  apply Hgone. intros before t. reflexivity.
Defined.

(** C7 as stated fails: on a POSIX machine where the fetch has left a
    read-only directory behind, the staging directory that the build
    step created is still there when the step is over: the retry of the
    handler fails as the first attempt did, and [rmtree] gives up. *)
Lemma workspace_survives_readonly_dir :
  ~ (forall (w : world) (s : state) (t : string),
        In (Mkdtemp t) (trace (snd (build_extension w s))) ->
        t ∉ staging (snd (build_extension w s))).
Proof.
  intros H.
  apply (H (with_listdir (machine "linux" ∅ all_succeed) module_cache_tree)
           initial "/tmp/tmpq1w2e3").
  - vm_compute. tauto.
  - apply (bool_decide_unpack _). vm_compute. exact I.
Qed.

(** There every command of the build succeeds, and yet what the build
    step raises is the failure of its own cleanup. *)
Example build_fails_in_cleanup :
  fst (build_extension
         (with_listdir (machine "linux" ∅ all_succeed) module_cache_tree)
         initial)
  = Raise (OSError "go.sum").
Proof. reflexivity. Qed.

(** *** Toolchain probes *)

Lemma check_toolchains_run (w : world) (s : state) :
  check_toolchains w s =
    match probe_outcome go_missing (go_probe w s) with
    | Return _ =>
        (probe_outcome swig_missing (swig_probe w (after_go_probe w s)),
         after_swig_probe w (after_go_probe w s))
    | Raise e => (Raise e, after_go_probe w s)
    end.
Proof.
  unfold check_toolchains, bind, try_except.
  rewrite _check_call_run. fold (go_probe w s). fold (after_go_probe w s).
  destruct (go_probe w s) as [[|code|code]|reason];
    cbn [check_call_outcome probe_outcome is_CalledProcessError raise];
    try reflexivity.
  rewrite _check_call_run.
  change (subprocess_run w _ _ _ _) with (swig_probe w (after_go_probe w s)).
  destruct (swig_probe w (after_go_probe w s)) as [[|code|code]|reason];
    reflexivity.
Qed.

(** When either probe stops the build, nothing has been staged. *)
Lemma build_stops_at_probe (w : world) (s : state) (e : exn) :
  fst (check_toolchains w s) = Raise e ->
  build_extension w s = check_toolchains w s /\
  staging (snd (build_extension w s)) = staging s /\
  acquired (trace (snd (build_extension w s))) = acquired (trace s).
Proof.
  intros He.
  assert (Hb : build_extension w s = check_toolchains w s).
  { unfold build_extension, bind.
    destruct (check_toolchains w s) as [[[]|e'] s']; [discriminate | reflexivity]. }
  rewrite Hb. split; [reflexivity|].
  destruct (check_toolchains_extends w s) as (evs & Ht & HP & Hs).
  split; [exact Hs|].
  rewrite Ht, acquired_app.
  destruct (build_events_acquire_nothing _ HP) as [-> _]. apply app_nil_r.
Qed.

(** A probe that runs and exits with a non-zero status stops the build
    with the remediation hint, before any staging directory exists. *)
Lemma go_probe_nonzero (w : world) (s : state) (code : Z) :
  code <> 0%Z ->
  go_probe w s = Exited code ->
  build_extension w s = (Raise (RuntimeError go_missing), after_go_probe w s).
Proof.
  intros Hcode Hrun. unfold build_extension, check_toolchains, bind, try_except.
  rewrite _check_call_run. fold (go_probe w s). rewrite Hrun.
  destruct code; [congruence | reflexivity | reflexivity].
Qed.

(** C5, where the code parts from it: when the [go] program cannot be
    started at all, the build stops before any staging directory exists,
    but what gets out is the bare [OSError] of the failed start, not the
    [RuntimeError] that carries the hint. *)
Theorem go_not_found_escapes (w : world) (s : state) (reason : string) :
  go_probe w s = NotStarted reason ->
  build_extension w s = (Raise (OSError reason), after_go_probe w s).
Proof.
  intros Hrun. unfold build_extension, check_toolchains, bind, try_except.
  rewrite _check_call_run. fold (go_probe w s). now rewrite Hrun.
Qed.

Lemma go_not_found_escapes_witness :
  fst (build_extension (machine "linux" ∅ go_not_installed) initial) =
    Raise (OSError "No such file or directory: 'go'") /\
  acquired (trace (snd (build_extension (machine "linux" ∅ go_not_installed)
                                        initial))) = [].
Proof.
  rewrite (go_not_found_escapes (machine "linux" ∅ go_not_installed) initial
             "No such file or directory: 'go'" eq_refl).
  split; reflexivity.
Defined.

(** *** Preparing the link *)

Lemma mem_snoc (x : string) (l : list string) : mem x (l ++ [x]) = true.
Proof.
  unfold mem. rewrite existsb_app. simpl.
  rewrite String.eqb_refl. by rewrite orb_true_r.
Qed.

Lemma guarded_append_idempotent (x : string) (l : list string) :
  guarded_append x (guarded_append x l) = guarded_append x l.
Proof.
  unfold guarded_append. destruct (mem x l) eqn:Hm.
  - now rewrite Hm.
  - now rewrite mem_snoc.
Qed.

Lemma prepare_link_run (root_path libswat_a : string) (s : state) :
  prepare_link root_path libswat_a s =
    (Return tt,
     {| ext := {| name := name (ext s);
                  sources := sources (ext s);
                  include_dirs := guarded_append root_path (include_dirs (ext s));
                  extra_compile_args :=
                    (extra_compile_args (ext s) ++ warning_flags)%list;
                  extra_link_args :=
                    guarded_append libswat_a (extra_link_args (ext s)) |};
        trace := trace s;
        staging := staging s |}).
Proof.
  unfold prepare_link, extra_compile_args_append, include_dirs_append,
    extra_link_args_append, update_ext, guarded_append. run_py.
  rewrite <- !app_assoc. simpl.
  destruct (mem root_path _); simpl; destruct (mem libswat_a _); reflexivity.
Qed.

(** C4, where the code parts from it: the include directory and the
    archive are appended only when absent, so a second pass leaves them
    alone; the five warning flags are appended without a check, so a
    second pass over the same build description leaves each of them in
    twice. *)
Theorem prepare_link_twice (root_path libswat_a : string) (s : state) :
  let s1 := snd (prepare_link root_path libswat_a s) in
  let s2 := snd (prepare_link root_path libswat_a s1) in
  include_dirs (ext s2) = include_dirs (ext s1) /\
  extra_link_args (ext s2) = extra_link_args (ext s1) /\
  extra_compile_args (ext s2) =
    (extra_compile_args (ext s) ++ warning_flags ++ warning_flags)%list /\
  extra_compile_args (ext s2) <> extra_compile_args (ext s1).
Proof.
  intros s1 s2. subst s2 s1. rewrite !prepare_link_run. simpl.
  rewrite !guarded_append_idempotent, <- app_assoc.
  repeat split.
  intros H. apply (f_equal length) in H.
  rewrite !length_app in H. simpl in H. lia.
Qed.

(** The whole build step run twice on [Extension('_pyswat', [])]. *)
Example build_twice_duplicates :
  let w := machine "linux" ∅ all_succeed in
  let e := ext (snd (build_extension w (snd (build_extension w initial)))) in
  extra_compile_args e = (warning_flags ++ warning_flags)%list /\
  sources e = ["/tmp/tmpq1w2e3/src/pyswat.c"; "/tmp/tmpq1w2e3/src/pyswat.c"] /\
  include_dirs e = ["/tmp/tmpq1w2e3/src/gitlab.sas.com/kesmit/go-libswat"] /\
  extra_link_args e = ["/tmp/tmpq1w2e3/src/libswat.a"].
Proof. vm_compute. repeat split. Qed.


(** * Further properties *)

Import facts.

(** ** The runtime bridge, beyond the entry points' failure paths *)



(** X2: in either state the import can leave the module in, each of the
    six forwarders does one of two things and nothing else: with the
    extension imported it enters the native entry point of its own name
    with the caller's arguments and hands back whatever that returns or
    raises, leaving the environment alone; after an [ImportError] it
    raises the [ValueError] of [_pyswat_error] and calls nothing. *)
Theorem forwarders_after_import (r : result native_module) (g : globals) :
  import_clib r = Return g ->
  Forall (fun nf =>
            forall args kwargs p,
              (exists m, r = Return m /\
                 snd nf g args kwargs p =
                   (native_entry m (fst nf) args kwargs (environ p),
                    called p (fst nf) args kwargs)) \/
              (exists msg, r = Raise (ImportError msg) /\
                 snd nf g args kwargs p =
                   (Raise (ValueError _pyswat_error_message), p)))
         forwarders.
Proof.
  intros Hg. destruct r as [m | e]; simpl in Hg.
  - injection Hg as <-. unfold forwarders.
    repeat (constructor; [intros; left; by exists m|]). constructor.
  - destruct e; try discriminate. injection Hg as <-. unfold forwarders.
    repeat (constructor; [intros; right; by eexists|]). constructor.
Qed.

Lemma forwarders_after_import_witness :
  SW_CASConnection (loaded tk_ok) [PyStr "host"; PyInt 5570] [] fresh_process =
    (Raise (ForeignError "TKPATH"),
     called fresh_process "SW_CASConnection" [PyStr "host"; PyInt 5570] []).
Proof.
  pose proof (forwarders_after_import (Return tk_ok) (loaded tk_ok) eq_refl) as H.
  apply Forall_inv in H.
  destruct (H [PyStr "host"; PyInt 5570] [] fresh_process)
    as [(m & Hm & Hrun) | (msg & Hmsg & _)]; [|discriminate].
  injection Hm as <-. exact Hrun.
Defined.

(** X3: [InitializeTK] never touches an environment variable other than
    [TKPATH], whatever the module state, the host, the arguments and the
    outcome of the native call. *)
Theorem InitializeTK_frame (h : host) (g : globals) (args : list pyval) kwargs
        (p : process) (k : string) :
  k <> "TKPATH" ->
  environ (snd (InitializeTK h g args kwargs p)) !! k = environ p !! k.
Proof.
  intros Hk. destruct g as [fl [| |m]]; try reflexivity.
  change (InitializeTK h {| _pyswat_loaded := fl; _pyswat := BoundModule m |}
                       args kwargs p)
    with (InitializeTK h (loaded m) args kwargs p).
  destruct (environ p !! "TKPATH") as [v|] eqn:Hv.
  - now rewrite (InitializeTK_preset_run h m args kwargs p v Hv).
  - rewrite (InitializeTK_unset_run h m args kwargs p Hv).
    unfold write_sentinel.
    remember (startswith (lower (clib.sys_platform h)) "win") as windows.
    remember (putenv_ok h "TKPATH" (os_pathsep h)) as sep_ok.
    destruct (contains "ppc" (platform_machine h));
      [destruct args as [|[| |a|] args];
       [| | |destruct (putenv_ok h "TKPATH" a)|]|];
      try (destruct windows; [destruct sep_ok|]); simpl;
      try reflexivity; by rewrite lookup_insert_ne.
Qed.

Lemma InitializeTK_frame_witness :
  environ (snd (InitializeTK ppc_linux (loaded tk_ok) [PyStr "/opt/tk"] []
                             fresh_process)) !! "HOME" = Some "/root".
Proof.
  rewrite (InitializeTK_frame ppc_linux (loaded tk_ok) [PyStr "/opt/tk"] []
             fresh_process "HOME"); [reflexivity | discriminate].
Defined.

(** X4: a [TKPATH] that is already set is neither overwritten nor removed:
    on any host the native call runs once with the environment as it is,
    its outcome is the caller's, and the environment is unchanged. *)
Theorem InitializeTK_preset (h : host) (m : native_module)
        (args : list pyval) kwargs (p : process) (v : string) :
  environ p !! "TKPATH" = Some v ->
  InitializeTK h (loaded m) args kwargs p =
    (native_entry m "InitializeTK" args kwargs (environ p),
     called p "InitializeTK" args kwargs).
Proof. apply InitializeTK_preset_run. Qed.

Lemma InitializeTK_preset_witness :
  let p := {| environ := <["TKPATH" := "/usr/tk"]> ∅; native_calls := [] |} in
  InitializeTK windows_x64 (loaded tk_ok) [PyStr "C:/tk"] [] p =
    (Return PyNone, called p "InitializeTK" [PyStr "C:/tk"] []).
Proof.
  intros p.
  rewrite (InitializeTK_preset windows_x64 tk_ok [PyStr "C:/tk"] [] p "/usr/tk"
             eq_refl).
  reflexivity.
Defined.

(** X5: on a ppc machine with [TKPATH] unset, a first positional argument
    that is not text makes the assignment to [os.environ] raise
    [TypeError] before the native call: nothing is called and the process
    is as before. *)
Theorem InitializeTK_rejects_non_text (h : host) (m : native_module)
        (a : pyval) (args : list pyval) kwargs (p : process) :
  contains "ppc" (platform_machine h) = true ->
  environ p !! "TKPATH" = None ->
  (forall s, a <> PyStr s) ->
  exists msg,
    InitializeTK h (loaded m) (a :: args) kwargs p = (Raise (TypeError msg), p).
Proof.
  intros Hppc Hun Ha. rewrite (InitializeTK_unset_run h m _ kwargs p Hun), Hppc.
  destruct a as [| |a|]; try (by eexists). by destruct (Ha a).
Qed.

Lemma InitializeTK_rejects_non_text_witness :
  exists msg,
    InitializeTK ppc_linux (loaded tk_ok) [PyNone] [] fresh_process
      = (Raise (TypeError msg), fresh_process).
Proof.
  apply (InitializeTK_rejects_non_text ppc_linux tk_ok PyNone [] []
           fresh_process eq_refl eq_refl).
  intros s. discriminate.
Defined.

(** X6: [InitializeTK] enters native code at most once, only through the
    entry point [InitializeTK] and with the caller's own arguments, and
    not at all unless [_pyswat] is bound to the extension. *)
Theorem InitializeTK_calls_once (h : host) (g : globals) (args : list pyval)
        kwargs (p : process) :
  exists l,
    native_calls (snd (InitializeTK h g args kwargs p)) = (native_calls p ++ l)%list /\
    length l <= 1 /\
    Forall (fun c => exists env, c = ("InitializeTK", args, kwargs, env)) l /\
    ((forall m, _pyswat g <> BoundModule m) -> l = []).
Proof.
  destruct g as [fl [| |m]].
  - exists []. simpl. rewrite app_nil_r. repeat split; [lia | constructor].
  - exists []. simpl. rewrite app_nil_r. repeat split; [lia | constructor].
  - change (InitializeTK h {| _pyswat_loaded := fl; _pyswat := BoundModule m |}
                         args kwargs p)
      with (InitializeTK h (loaded m) args kwargs p).
    destruct (environ p !! "TKPATH") as [v|] eqn:Hv.
    + rewrite (InitializeTK_preset_run h m args kwargs p v Hv). simpl.
      eexists [_]. repeat split; [simpl; lia | repeat constructor; by eexists |].
      intros Hm. by destruct (Hm m).
    + rewrite (InitializeTK_unset_run h m args kwargs p Hv).
      assert (Hone : forall env,
                 exists l, (native_calls p ++ [("InitializeTK", args, kwargs, env)]
                            = native_calls p ++ l)%list /\
                   length l <= 1 /\
                   Forall (fun c => exists env, c = ("InitializeTK", args, kwargs, env)) l /\
                   ((forall m0, BoundModule m <> BoundModule m0) -> l = [])).
      { intros env. eexists [_]. split; [reflexivity|]. split; [simpl; lia|].
        split; [repeat constructor; by eexists|]. intros Hm. by destruct (Hm m). }
      assert (Hnone : exists l, native_calls p = (native_calls p ++ l)%list /\
                   length l <= 1 /\
                   Forall (fun c => exists env, c = ("InitializeTK", args, kwargs, env)) l /\
                   ((forall m0, BoundModule m <> BoundModule m0) -> l = [])).
      { exists []. rewrite app_nil_r. repeat split; [simpl; lia | constructor]. }
      unfold write_sentinel, called.
      remember (startswith (lower (clib.sys_platform h)) "win") as windows.
      remember (putenv_ok h "TKPATH" (os_pathsep h)) as sep_ok.
      destruct (contains "ppc" (platform_machine h));
        [destruct args as [|[| |a|] args];
         [| | |destruct (putenv_ok h "TKPATH" a)|]|];
        try (destruct windows; [destruct sep_ok|]); simpl;
        first [apply Hone | apply Hnone].
Qed.

Lemma InitializeTK_calls_once_witness :
  native_calls
    (snd (InitializeTK ppc_linux {| _pyswat_loaded := false; _pyswat := Unbound |}
                       [PyStr "/opt/tk"] [] fresh_process)) = [].
Proof.
  destruct (InitializeTK_calls_once
              ppc_linux {| _pyswat_loaded := false; _pyswat := Unbound |}
              [PyStr "/opt/tk"] [] fresh_process) as (l & Hl & _ & _ & Hnone).
  rewrite Hl, Hnone; [reflexivity | discriminate].
Defined.

(** X7: on Windows, unless the ppc path fails (no first argument, or one
    that [os.environ] does not take as a value: not text, or text with a
    NUL in it), [TKPATH] is set when [InitializeTK] is over -- to its old
    value if it had one, to the sentinel otherwise -- whether the native
    call returned or raised.  [os.pathsep] is taken to be a value that
    [os.environ] accepts. *)
Theorem InitializeTK_windows_leaves_TKPATH (h : host) (m : native_module)
        (args : list pyval) kwargs (p : process) :
  startswith (lower (clib.sys_platform h)) "win" = true ->
  putenv_ok h "TKPATH" (os_pathsep h) = true ->
  contains "ppc" (platform_machine h) = false \/
  first_is_value h "TKPATH" args = true \/
  is_Some (environ p !! "TKPATH") ->
  environ (snd (InitializeTK h (loaded m) args kwargs p)) !! "TKPATH" =
    Some (default (os_pathsep h) (environ p !! "TKPATH")).
Proof.
  intros Hwin Hsep Hcase.
  destruct (environ p !! "TKPATH") as [v|] eqn:Hv.
  - rewrite (InitializeTK_preset_run h m args kwargs p v Hv). exact Hv.
  - rewrite (InitializeTK_unset_run h m args kwargs p Hv).
    unfold write_sentinel. rewrite Hwin, Hsep.
    destruct (contains "ppc" (platform_machine h)).
    + destruct Hcase as [? | [Hstr | [? ?]]]; try discriminate.
      destruct args as [|[| |a|] args]; try discriminate.
      simpl in Hstr. rewrite Hstr. simpl. apply lookup_insert_eq.
    + simpl. apply lookup_insert_eq.
Qed.

Lemma InitializeTK_windows_leaves_TKPATH_witness :
  environ (snd (InitializeTK ppc_windows (loaded tk_ok) [PyStr "C:/tk"] []
                             fresh_process))
    !! "TKPATH" = Some ";".
Proof.
  apply (InitializeTK_windows_leaves_TKPATH ppc_windows tk_ok [PyStr "C:/tk"] []
           fresh_process eq_refl eq_refl).
  right. left. reflexivity.
Defined.

(** With a NUL in the first argument the ppc path stops at the
    assignment, and Windows is left without the sentinel. *)
Example InitializeTK_windows_NUL_path :
  InitializeTK ppc_windows (loaded tk_ok) [PyStr (String zero "tk")] []
               fresh_process
  = (Raise (ValueError "embedded null byte"), fresh_process).
Proof. reflexivity. Qed.

(** ** The build step, beyond the fetch and the cleanup *)

(** X8: a probe that runs but exits with a non-zero status stops the build
    with the hint for that tool, before any staging directory exists; the
    second tool is probed only after the first has passed. *)
Theorem probe_failure_hint (w : world) (s : state) (code : Z) :
  code <> 0%Z ->
  (go_probe w s = Exited code ->
   build_extension w s = (Raise (RuntimeError go_missing), after_go_probe w s)) /\
  (go_probe w s = Exited 0 -> swig_probe w (after_go_probe w s) = Exited code ->
   build_extension w s = (Raise (RuntimeError swig_missing), probed w s)).
Proof.
  intros Hcode.
  assert (Hnz : probe_outcome go_missing (Exited code) = Raise (RuntimeError go_missing)
                /\ probe_outcome swig_missing (Exited code)
                   = Raise (RuntimeError swig_missing))
    by (destruct code; [congruence | split; reflexivity | split; reflexivity]).
  destruct Hnz as [Hgo Hswig].
  split.
  - intros Hrun. unfold build_extension, bind.
    rewrite check_toolchains_run, Hrun, Hgo. reflexivity.
  - intros Hrun Hrun'. unfold build_extension, bind.
    rewrite check_toolchains_run, Hrun. simpl. rewrite Hrun', Hswig. reflexivity.
Qed.

Lemma probe_failure_hint_witness :
  build_extension (machine "linux" ∅ swig_probe_fails) initial =
    (Raise (RuntimeError swig_missing),
     probed (machine "linux" ∅ swig_probe_fails) initial).
Proof.
  apply (proj2 (probe_failure_hint (machine "linux" ∅ swig_probe_fails)
                  initial 2 ltac:(discriminate))); reflexivity.
Defined.

(** X9: the scoped workspace hands through what its body does: the
    build description is as the body left it, and what the body returns
    or raises is what comes out -- unless the cleanup itself raises, in
    which case that exception takes its place.  The cleanup does not
    raise where an entry's own attribute decides on its removal, nor
    under permissions when no directory it finds is read-only. *)
Theorem _tmpdir_transparent {A : Type} (w : world) (body : string -> M state A)
        (s : state) :
  let tempdir := tempfile_mkdtemp w (trace s) in
  let inside := body tempdir
                  {| ext := ext s;
                     trace := (trace s ++ [Mkdtemp tempdir])%list;
                     staging := {[ tempdir ]} ∪ staging s |} in
  let c := cleanup w (trace (snd inside)) tempdir in
  fst (_tmpdir w body s) = after_cleanup c (fst inside) /\
  ext (snd (_tmpdir w body s)) = ext (snd inside) /\
  (cleanable (removal w) (staged_tree w (trace (snd inside)) tempdir) = true ->
   fst (_tmpdir w body s) = fst inside) /\
  (forall x, fst c = Raise x -> fst (_tmpdir w body s) = Raise x).
Proof.
  intros tempdir inside c. rewrite _tmpdir_run.
  split; [reflexivity|]. split; [reflexivity|]. split.
  - intros Hc. cbn [fst]. fold tempdir. fold inside.
    unfold after_cleanup. by rewrite (cleanup_removes _ _ _ Hc).
  - intros x Hx. cbn [fst]. fold tempdir. fold inside. fold c.
    unfold after_cleanup. by rewrite Hx.
Qed.

Lemma _tmpdir_transparent_witness :
  fst (_tmpdir (machine "win32" ∅ all_succeed)
               (fun _ => @raise state unit (RuntimeError "body")) initial)
    = Raise (RuntimeError "body").
Proof.
  destruct (_tmpdir_transparent (machine "win32" ∅ all_succeed)
              (fun _ => @raise state unit (RuntimeError "body")) initial)
    as (_ & _ & Hclean & _).
  apply Hclean. reflexivity.
Defined.

(** The cleanup's exception in place of a body that returned. *)
Example _tmpdir_cleanup_raises :
  fst (_tmpdir (with_listdir (machine "linux" ∅ all_succeed) module_cache_tree)
               (fun _ => ret 0%Z) initial)
    = Raise (OSError "go.sum").
Proof. reflexivity. Qed.

(** A build that got past both probes is the generator-to-link stage run
    from [fetched], followed by the removal of the staging directory. *)
Lemma build_extension_probed (w : world) (s : state) :
  go_probe w s = Exited 0 ->
  swig_probe w (after_go_probe w s) = Exited 0 ->
  let t := tempdir_of w s in
  let r := generate_and_link w (classify (setup.sys_platform w)) t (go_env t)
                             (fetched w s) in
  let c := cleanup w (trace (snd r)) t in
  build_extension w s =
    (after_cleanup c (fst r),
     {| ext := ext (snd r);
        trace := (trace (snd r) ++ [Rmtree t])%list;
        staging := match snd c with
                   | None => staging (snd r) ∖ {[ t ]}
                   | Some _ => staging (snd r)
                   end |}).
Proof.
  intros Hgo Hswig t r c. subst c r. unfold build_extension, bind.
  rewrite check_toolchains_run, Hgo. simpl. rewrite Hswig. simpl.
  rewrite _tmpdir_run. fold (probed w s). fold (tempdir_of w s). fold t.
  unfold staged_build, bind, os_makedirs, emit, modify. rewrite fetch_run.
  cbn [fst snd ext trace staging].
  replace (((trace (probed w s) ++ [Mkdtemp t]) ++ [Makedirs (src_path w t)]) ++
           [Stderr_write (go_env t) (go_get w);
            Check_call (go_get w) (src_path w t) (go_env t ∪ os_environ w);
            Stderr_write (go_env t) (go_get w);
            Check_call (go_get w) (src_path w t) (go_env t ∪ os_environ w)])%list
    with (trace (fetched w s))
    by (unfold fetched, staged; simpl; now rewrite <- !app_assoc).
  reflexivity.
Qed.


(** The stage from the generator to the link, by how far it gets. *)
Lemma generate_and_link_aborts (w : world) (platform : profile)
      (tempdir : string) (env : gmap string string) (s : state) (e : exn) :
  let env' := osx_build_target w platform env in
  check_call_outcome (swig w platform tempdir)
    (subprocess_run w (trace s ++ [Stderr_write env' (swig w platform tempdir)])%list
                    (swig w platform tempdir) (root_path w platform tempdir)
                    (env' ∪ os_environ w)) = Raise e ->
  generate_and_link w platform tempdir env s =
    (Raise e,
     {| ext := ext s;
        trace := (trace s ++
                  [Stderr_write env' (swig w platform tempdir);
                   Check_call (swig w platform tempdir)
                              (root_path w platform tempdir)
                              (env' ∪ os_environ w)])%list;
        staging := staging s |}).
Proof.
  intros env' Hout. unfold generate_and_link. fold env'. unfold bind at 1.
  rewrite _check_call_run, Hout. reflexivity.
Qed.


(** X12: a failing interface generator is fatal and not retried: the
    staged build ends with the generator's [CalledProcessError], no
    further command is run, the build description is untouched, and the
    staging directory is handed to the cleanup.  When the cleanup goes
    through, that [CalledProcessError] is what the build raises and the
    staging directory is gone; a cleanup that raises puts its own
    exception in its place. *)
Theorem generator_failure_is_fatal (w : world) (s : state) (code : Z) :
  go_probe w s = Exited 0 ->
  swig_probe w (after_go_probe w s) = Exited 0 ->
  generator_exit w s = Exited code ->
  code <> 0%Z ->
  let out := build_extension w s in
  let before := (trace (fetched w s) ++ generator_events w s)%list in
  fst out = after_cleanup (cleanup w before (tempdir_of w s))
              (Raise (CalledProcessError code (generator w s))) /\
  ext (snd out) = ext s /\
  trace (snd out) = (before ++ [Rmtree (tempdir_of w s)])%list /\
  (cleanable (removal w) (staged_tree w before (tempdir_of w s)) = true ->
   fst out = Raise (CalledProcessError code (generator w s)) /\
   tempdir_of w s ∉ staging (snd out)).
Proof.
  intros Hgo Hswig Hgen Hcode out before. subst out.
  rewrite (build_extension_probed w s Hgo Hswig).
  rewrite (generate_and_link_aborts w _ _ _ (fetched w s)
             (CalledProcessError code (generator w s))).
  - cbn [fst snd ext trace staging].
    assert (Hbefore : (trace (fetched w s) ++
              [Stderr_write
                 (osx_build_target w (classify (setup.sys_platform w))
                    (go_env (tempdir_of w s)))
                 (swig w (classify (setup.sys_platform w)) (tempdir_of w s));
               Check_call
                 (swig w (classify (setup.sys_platform w)) (tempdir_of w s))
                 (root_path w (classify (setup.sys_platform w)) (tempdir_of w s))
                 (osx_build_target w (classify (setup.sys_platform w))
                    (go_env (tempdir_of w s)) ∪ os_environ w)])%list = before)
      by reflexivity.
    rewrite Hbefore. split; [reflexivity|]. split; [reflexivity|].
    split; [reflexivity|]. intros Hc.
    rewrite (cleanup_removes _ _ _ Hc). split; [reflexivity|].
    cbn [snd]. set_solver.
  - fold (build_env w s) (generator w s). fold (generator_exit w s).
    rewrite Hgen. destruct code; [congruence | reflexivity | reflexivity].
Qed.

Lemma generator_failure_is_fatal_witness :
  fst (build_extension (machine "linux" ∅ generator_fails) initial) =
    Raise (CalledProcessError 1 (generator (machine "linux" ∅ generator_fails)
                                           initial)).
Proof.
  destruct (generator_failure_is_fatal (machine "linux" ∅ generator_fails)
              initial 1 eq_refl eq_refl eq_refl ltac:(discriminate))
    as (_ & _ & _ & Hclean).
  apply Hclean. reflexivity.
Defined.



(** *** Environments of the commands *)

Lemma osx_build_target_other (w : world) (platform : profile)
      (env : gmap string string) (k : string) :
  k <> "MACOSX_DEPLOYMENT_TARGET" -> k <> "CC" ->
  osx_build_target w platform env !! k = env !! k.
Proof.
  intros Hk1 Hk2. unfold osx_build_target. destruct platform; try reflexivity.
  destruct (os_path_isfile w "/usr/bin/gcc");
    [rewrite lookup_insert_ne by done|];
    destruct (split "-" (environ_get w "PLAT" "-10.7-")) as [|f0 [|plat1 rest]];
    try reflexivity;
    destruct (re_match (re_digit w) major_minor (text_chars w plat1));
    try reflexivity; by rewrite lookup_insert_ne.
Qed.

(** X16: the macOS adjustments touch two variables only.  [CC] is pointed
    at [/usr/bin/gcc] exactly when that file exists, on the [osx] profile;
    every variable other than [CC] and [MACOSX_DEPLOYMENT_TARGET] is as it
    was, on every profile. *)
Theorem osx_build_target_scope (w : world) (platform : profile)
        (env : gmap string string) :
  (forall k, k <> "MACOSX_DEPLOYMENT_TARGET" -> k <> "CC" ->
             osx_build_target w platform env !! k = env !! k) /\
  osx_build_target w osx env !! "CC" =
    (if os_path_isfile w "/usr/bin/gcc" then Some "/usr/bin/gcc" else env !! "CC").
Proof.
  split; [intros k; apply osx_build_target_other|].
  unfold osx_build_target.
  destruct (os_path_isfile w "/usr/bin/gcc"); [apply lookup_insert_eq|].
  destruct (split "-" (environ_get w "PLAT" "-10.7-")) as [|f0 [|plat1 rest]];
    try reflexivity.
  destruct (re_match (re_digit w) major_minor (text_chars w plat1));
    [by rewrite lookup_insert_ne | reflexivity].
Qed.

Lemma osx_build_target_scope_witness :
  osx_build_target (mac_with_PLAT "macosx-10.9-x86_64") osx (go_env "/tmp/t")
    !! "GOPATH" = Some "/tmp/t".
Proof.
  rewrite (proj1 (osx_build_target_scope (mac_with_PLAT "macosx-10.9-x86_64") osx
                    (go_env "/tmp/t")) "GOPATH");
    [reflexivity | discriminate | discriminate].
Defined.

Lemma go_env_isolated (w : world) (platform : profile) (tempdir : string)
      (cmd : list string) (cwd : string) :
  isolated w tempdir (Check_call cmd cwd (go_env tempdir ∪ os_environ w)) /\
  isolated w tempdir
    (Check_call cmd cwd
       (osx_build_target w platform (go_env tempdir) ∪ os_environ w)).
Proof.
  assert (Hgo : go_env tempdir !! "GOPATH" = Some tempdir)
    by apply lookup_insert_eq.
  assert (Hmod : go_env tempdir !! "GO111MODULE" = Some "auto")
    by (unfold go_env; rewrite lookup_insert_ne by done; apply lookup_insert_eq).
  assert (Hother : forall k, k ∉ overrides -> go_env tempdir !! k = None).
  { intros k Hk. unfold go_env, overrides in *.
    rewrite !lookup_insert_ne, lookup_empty; [done | |];
      intros <-; apply Hk; set_solver. }
  split; simpl.
  - split; [by apply lookup_union_Some_l|].
    split; [by apply lookup_union_Some_l|].
    intros k Hk. by rewrite lookup_union_r by auto.
  - split; [apply lookup_union_Some_l; by rewrite osx_build_target_other|].
    split; [apply lookup_union_Some_l; by rewrite osx_build_target_other|].
    intros k Hk. rewrite lookup_union_r; [done|].
    rewrite osx_build_target_other; [by apply Hother | |];
      intros ->; apply Hk; unfold overrides; set_solver.
Qed.

(** X10: every command of the staged build -- both fetch attempts, the
    generator, the archive build and the explicit link -- runs with
    [GOPATH] set to the staging directory and [GO111MODULE] to [auto],
    whatever the inherited environment says, and with every variable the
    build does not override inherited unchanged. *)
Theorem staged_build_isolated (w : world) (platform : profile) (tempdir : string)
        (s : state) :
  exists evs,
    trace (snd (staged_build w platform tempdir s)) = (trace s ++ evs)%list /\
    Forall (isolated w tempdir) evs.
Proof.
  assert (H : extends (isolated w tempdir) (staged_build w platform tempdir)).
  { unfold staged_build, generate_and_link, fetch, prepare_link, os_makedirs,
      sources_append, extra_compile_args_append, include_dirs_append,
      extra_link_args_append, build_ext_build_extension.
    repeat first
      [ apply extends__check_call;
        [exact I
        | first [ apply (proj1 (go_env_isolated w unix tempdir _ _))
                | apply go_env_isolated ]]
      | extends_step ]. }
  destruct (H s) as (evs & Ht & HP & _). by exists evs.
Qed.

(** *** Runs of events *)

Section adds.
Context (Q : list event -> Prop).
Hypothesis Q_nil : Q [].
Hypothesis Q_app : forall l1 l2, Q l1 -> Q l2 -> Q (l1 ++ l2)%list.

Lemma adds_still {A} (m : M state A) :
  (forall s, trace (snd (m s)) = trace s) -> adds Q m.
Proof. intros H s. exists []. rewrite H, app_nil_r. by split. Qed.

Lemma adds_emit (ev : event) : Q [ev] -> adds Q (emit ev).
Proof. intros H s. by exists [ev]. Qed.

Lemma adds_bind {A B} (m : M state A) (k : A -> M state B) :
  adds Q m -> (forall a, adds Q (k a)) -> adds Q (bind m k).
Proof.
  intros Hm Hk s. unfold bind.
  destruct (Hm s) as (evs1 & Ht1 & HQ1).
  destruct (m s) as [[a|e] s1]; simpl in *.
  - destruct (Hk a s1) as (evs2 & Ht2 & HQ2).
    exists (evs1 ++ evs2)%list. rewrite Ht2, Ht1, app_assoc. split; auto.
  - by exists evs1.
Qed.

Lemma adds_try_except_pass (m : M state unit) :
  adds Q m -> adds Q (try_except_pass m).
Proof.
  intros Hm s. unfold try_except_pass.
  destruct (Hm s) as (evs & Ht & HQ). destruct (m s) as [r s1]. by exists evs.
Qed.

Lemma adds_try_except {A} (m : M state A) (catches : exn -> bool)
      (handler : exn -> M state A) :
  adds Q m -> (forall e, adds Q (handler e)) ->
  adds Q (try_except m catches handler).
Proof.
  intros Hm Hh s. unfold try_except.
  destruct (Hm s) as (evs1 & Ht1 & HQ1).
  destruct (m s) as [[a|e] s1]; simpl in *; [by exists evs1|].
  destruct (catches e); [|by exists evs1].
  destruct (Hh e s1) as (evs2 & Ht2 & HQ2).
  exists (evs1 ++ evs2)%list. rewrite Ht2, Ht1, app_assoc. split; auto.
Qed.

Lemma adds__check_call (w : world) (cmd : list string) (cwd : string)
      (env : gmap string string) :
  Q [Stderr_write env cmd; Check_call cmd cwd (env ∪ os_environ w)] ->
  adds Q (_check_call w cmd cwd env).
Proof. intros H s. rewrite _check_call_run. simpl. by eexists. Qed.

Lemma adds__tmpdir {A} (w : world) (body : string -> M state A) :
  (forall t, Q [Mkdtemp t]) -> (forall t, Q [Rmtree t]) ->
  (forall t, adds Q (body t)) -> adds Q (_tmpdir w body).
Proof.
  intros Hmk Hrm Hbody s. rewrite _tmpdir_run. simpl.
  match goal with
  | |- context [body ?t ?s1] => destruct (Hbody t s1) as (evs & Ht & HQ)
  end.
  exists ([Mkdtemp (tempfile_mkdtemp w (trace s))] ++ evs ++
          [Rmtree (tempfile_mkdtemp w (trace s))])%list.
  rewrite Ht. simpl. rewrite <- !app_assoc. split; [reflexivity|].
  apply (Q_app [_]); auto.
Qed.
End adds.

Lemma echoed_app (w : world) (l1 l2 : list event) :
  echoed w l1 -> echoed w l2 -> echoed w (l1 ++ l2)%list.
Proof. induction 1; intros H2; simpl; try constructor; auto. Qed.

Ltac adds_step :=
  first
    [ apply adds__check_call; repeat constructor
    | apply adds_emit; repeat constructor
    | apply adds_bind; [assumption | | intros ?]
    | apply adds_try_except_pass
    | apply adds_try_except; [assumption | | intros ?]
    | apply adds_still; [assumption | intros; reflexivity]
    | match goal with
      | |- adds _ (if ?b then _ else _) => destruct b
      | |- adds _ (match ?x with _ => _ end) => destruct x
      end ].

(** X11: every command that the build step itself starts -- all of them
    go through [_check_call] -- is written to standard error immediately
    before it runs, with the same command line, and runs with exactly the
    announced overrides laid over the inherited environment.  This does
    not speak of the compiler and linker that the inherited
    [build_ext.build_extension] starts on its own. *)
Theorem build_extension_echoed (w : world) (s : state) :
  exists evs,
    trace (snd (build_extension w s)) = (trace s ++ evs)%list /\
    echoed w evs.
Proof.
  assert (H : adds (echoed w) (build_extension w)).
  { pose proof (echoed_nil w) as Hnil. pose proof (echoed_app w) as Happ.
    unfold build_extension, check_toolchains.
    apply adds_bind; [assumption | | intros ?].
    - repeat adds_step.
    - apply adds__tmpdir;
        [assumption | intros; repeat constructor | intros; repeat constructor
        | intros t].
      unfold staged_build, generate_and_link, fetch, prepare_link, os_makedirs,
        sources_append, extra_compile_args_append, include_dirs_append,
        extra_link_args_append, build_ext_build_extension, update_ext.
      repeat adds_step. }
  apply H.
Qed.

(** *** The two ways to link *)

Lemma generate_and_link_last (w : world) (platform : profile)
      (tempdir : string) (env : gmap string string) (s : state) :
  let out := generate_and_link w platform tempdir env s in
  fst out = Return tt ->
  last (trace (snd out)) =
    Some (match platform with
          | win => Check_call (gcc_link w (ext (snd out))) (os_getcwd w)
                              (osx_build_target w platform env ∪ os_environ w)
          | _ => Super_build_extension (ext (snd out))
          end).
Proof.
  intros out. subst out.
  destruct (generate_and_link w platform tempdir env s) as [r s'] eqn:Hgl.
  simpl. intros ->. revert Hgl.
  unfold generate_and_link. unfold bind at 1. rewrite _check_call_run.
  destruct (check_call_outcome _ _) as [[]|e]; [|discriminate].
  unfold bind at 1. unfold sources_append, update_ext, modify.
  unfold bind at 1. rewrite _check_call_run.
  destruct (check_call_outcome _ _) as [[]|e]; [|discriminate].
  unfold bind at 1. rewrite prepare_link_run.
  cbn [ext trace staging name sources include_dirs extra_compile_args
       extra_link_args].
  destruct platform.
  - unfold bind, gets. rewrite _check_call_run. intros [= _ <-].
    cbn [ext trace]. rewrite last_app. reflexivity.
  - unfold build_ext_build_extension, bind, gets, emit, modify.
    intros [= _ <-]. cbn [ext trace]. by rewrite last_snoc.
  - unfold build_ext_build_extension, bind, gets, emit, modify.
    intros [= _ <-]. cbn [ext trace]. by rewrite last_snoc.
Qed.

Lemma staged_build_generate (w : world) (platform : profile) (tempdir : string)
      (s : state) :
  exists s1, staged_build w platform tempdir s =
             generate_and_link w platform tempdir (go_env tempdir) s1.
Proof.
  unfold staged_build, bind, os_makedirs, emit, modify. rewrite fetch_run.
  by eexists.
Qed.

(** X14: the link is done one way or the other, never both.  On the [win]
    profile the staged build never hands over to the inherited
    [build_extension], and when it returns normally the last thing it did
    was to run the explicit [gcc] command of lines 144-152 on the final
    build description; on the other profiles it issues no [gcc] command
    of its own through [_check_call], and when it returns normally the
    last thing it did was the inherited step (which compiler that step
    then starts is not part of this). *)
Theorem link_strategy (w : world) (platform : profile) (tempdir : string)
        (s : state) :
  let out := staged_build w platform tempdir s in
  exists evs,
    trace (snd out) = (trace s ++ evs)%list /\
    match platform with
    | win =>
        Forall (fun ev => ~ inherited_step ev) evs /\
        (fst out = Return tt ->
         last (trace (snd out)) =
           Some (Check_call (gcc_link w (ext (snd out))) (os_getcwd w)
                   (osx_build_target w win (go_env tempdir) ∪ os_environ w)))
    | _ =>
        Forall (fun ev => ~ runs "gcc" ev) evs /\
        (fst out = Return tt ->
         last (trace (snd out)) = Some (Super_build_extension (ext (snd out))))
    end.
Proof.
  intros out. subst out.
  assert (Hlast : fst (staged_build w platform tempdir s) = Return tt ->
            last (trace (snd (staged_build w platform tempdir s))) =
              Some (match platform with
                    | win => Check_call
                               (gcc_link w (ext (snd (staged_build w platform tempdir s))))
                               (os_getcwd w)
                               (osx_build_target w platform (go_env tempdir)
                                  ∪ os_environ w)
                    | _ => Super_build_extension
                             (ext (snd (staged_build w platform tempdir s)))
                    end)).
  { destruct (staged_build_generate w platform tempdir s) as [s1 ->].
    apply generate_and_link_last. }
  assert (H : extends (fun ev => match platform with
                                 | win => ~ inherited_step ev
                                 | _ => ~ runs "gcc" ev
                                 end)
                      (staged_build w platform tempdir)).
  { unfold staged_build, generate_and_link, fetch, prepare_link, os_makedirs,
      sources_append, extra_compile_args_append, include_dirs_append,
      extra_link_args_append, build_ext_build_extension.
    destruct platform;
      repeat first
        [ apply extends__check_call; simpl; [tauto | try tauto; discriminate]
        | apply extends_emit; simpl; tauto
        | extends_step ]. }
  destruct (H s) as (evs & Ht & HP & _). exists evs. split; [exact Ht|].
  destruct platform; (split; [exact HP | exact Hlast]).
Qed.

Lemma link_strategy_witness :
  let out := staged_build (machine "linux" ∅ all_succeed) unix "/tmp/tmpq1w2e3"
                          initial in
  last (trace (snd out)) = Some (Super_build_extension (ext (snd out))).
Proof.
  destruct (link_strategy (machine "linux" ∅ all_succeed) unix "/tmp/tmpq1w2e3"
                          initial) as (evs & _ & _ & Hlast).
  apply Hlast. reflexivity.
Defined.

(** *** The guarded appends *)

Lemma mem_elem_of (x : string) (l : list string) : mem x l = true <-> x ∈ l.
Proof.
  unfold mem. rewrite existsb_exists. split.
  - intros (y & Hin & Heq). apply String.eqb_eq in Heq as ->.
    by apply list_elem_of_In.
  - intros Hin. exists x. split; [by apply list_elem_of_In | apply String.eqb_refl].
Qed.

Lemma guarded_append_spec (x : string) (l : list string) :
  x ∈ guarded_append x l /\
  l `prefix_of` guarded_append x l /\
  (NoDup l -> NoDup (guarded_append x l)).
Proof.
  unfold guarded_append. destruct (mem x l) eqn:Hm.
  - apply mem_elem_of in Hm. done.
  - assert (x ∉ l) by (rewrite <- mem_elem_of; congruence).
    split; [set_solver|]. split; [by apply prefix_app_r|].
    intros Hnd. apply NoDup_app. split; [done|].
    split; [set_solver | apply NoDup_singleton].
Qed.

(** X15: the link preparation keeps the include directories and the link
    arguments free of duplicates if they were, keeps what was there in
    place and in order, and leaves the dependency root among the include
    directories and the archive among the link arguments. *)
Theorem prepare_link_guarded (root_path libswat_a : string) (s : state) :
  let e := ext s in
  let e' := ext (snd (prepare_link root_path libswat_a s)) in
  (NoDup (include_dirs e) -> NoDup (include_dirs e')) /\
  (NoDup (extra_link_args e) -> NoDup (extra_link_args e')) /\
  root_path ∈ include_dirs e' /\
  libswat_a ∈ extra_link_args e' /\
  include_dirs e `prefix_of` include_dirs e' /\
  extra_link_args e `prefix_of` extra_link_args e'.
Proof.
  intros e e'. subst e e'. rewrite prepare_link_run. simpl.
  destruct (guarded_append_spec root_path (include_dirs (ext s))) as (? & ? & ?).
  destruct (guarded_append_spec libswat_a (extra_link_args (ext s))) as (? & ? & ?).
  done.
Qed.

Lemma prepare_link_guarded_witness :
  NoDup (include_dirs
           (ext (snd (prepare_link "/tmp/t/src/root" "/tmp/t/src/libswat.a"
                                   initial)))).
Proof.
  apply (proj1 (prepare_link_guarded "/tmp/t/src/root" "/tmp/t/src/libswat.a"
                  initial)).
  simpl. apply NoDup_nil_2.
Defined.

(** *** Fields and flags *)

Lemma split_from_no_sep (sep : ascii) (field s : string) :
  contains (String sep "") s = false ->
  split_from sep field s = [field ++ s].
Proof.
  revert field. induction s as [|c s IH]; intros field Hc; simpl.
  - by rewrite append_empty_r.
  - simpl in Hc. apply orb_false_elim in Hc as [Hc Hs].
    rewrite andb_true_r in Hc. rewrite Hc. rewrite IH by exact Hs.
    by rewrite append_assoc.
Qed.

(** X17: a [PLAT] value without a [-] has no second field, and then the
    deployment target is left alone. *)
Theorem deployment_target_needs_field (w : world) (env : gmap string string)
        (plat : string) :
  os_environ w !! "PLAT" = Some plat ->
  contains "-" plat = false ->
  osx_build_target w osx env !! "MACOSX_DEPLOYMENT_TARGET" =
    env !! "MACOSX_DEPLOYMENT_TARGET".
Proof.
  intros Hplat Hdash. rewrite osx_build_target_lookup.
  unfold environ_get. rewrite Hplat. unfold split.
  now rewrite split_from_no_sep by exact Hdash.
Qed.

Lemma deployment_target_needs_field_witness :
  osx_build_target (mac_with_PLAT "10.9") osx ∅ !! "MACOSX_DEPLOYMENT_TARGET"
    = None.
Proof.
  rewrite (deployment_target_needs_field (mac_with_PLAT "10.9") ∅ "10.9");
    [apply lookup_empty | vm_compute; reflexivity | reflexivity].
Defined.






(** The unit separator is white space to Python 3 and cuts the flags
    like a blank. *)
Example flags_cut_at_unit_separator :
  str_split (machine "linux" ∅ all_succeed)
            ("-u" ++ String (ascii_of_nat 31) "-v")
  = ["-u"; "-v"].
Proof. reflexivity. Qed.

(** *** A failing archive build *)

Lemma generate_and_link_archive_fails (w : world) (platform : profile)
      (tempdir : string) (env : gmap string string) (s : state) (e : exn) :
  let env' := osx_build_target w platform env in
  let s1 := {| ext := {| name := name (ext s);
                         sources := (sources (ext s) ++
                                     [os_path_join w (src_path w tempdir)
                                                   "pyswat.c"])%list;
                         include_dirs := include_dirs (ext s);
                         extra_compile_args := extra_compile_args (ext s);
                         extra_link_args := extra_link_args (ext s) |};
               trace := (trace s ++
                         [Stderr_write env' (swig w platform tempdir);
                          Check_call (swig w platform tempdir)
                                     (root_path w platform tempdir)
                                     (env' ∪ os_environ w)])%list;
               staging := staging s |} in
  subprocess_run w (trace s ++ [Stderr_write env' (swig w platform tempdir)])%list
                 (swig w platform tempdir) (root_path w platform tempdir)
                 (env' ∪ os_environ w) = Exited 0 ->
  check_call_outcome (go_build w tempdir)
    (subprocess_run w (trace s1 ++ [Stderr_write env' (go_build w tempdir)])%list
                    (go_build w tempdir) (root_path w platform tempdir)
                    (env' ∪ os_environ w)) = Raise e ->
  generate_and_link w platform tempdir env s =
    (Raise e,
     {| ext := ext s1;
        trace := (trace s1 ++
                  [Stderr_write env' (go_build w tempdir);
                   Check_call (go_build w tempdir) (root_path w platform tempdir)
                              (env' ∪ os_environ w)])%list;
        staging := staging s |}).
Proof.
  intros env' s1 Hgen Hout. unfold generate_and_link. fold env'.
  unfold bind at 1. rewrite _check_call_run, Hgen.
  cbn [check_call_outcome]. unfold bind at 1.
  unfold sources_append, update_ext, modify.
  unfold bind at 1. rewrite _check_call_run.
  cbn [ext trace staging]. fold s1.
  change (trace s ++ _)%list with (trace s1) at 1.
  rewrite Hout. reflexivity.
Qed.

(** X19: when the archive build fails after the generator has run, the
    staged build ends with that [CalledProcessError] and the staging
    directory is handed to the cleanup, but the build description keeps
    the path of the generated source that was appended before; flags,
    include directories and link arguments are as they were.  When the
    cleanup goes through, that [CalledProcessError] is what the build
    raises and the staging directory is gone; a cleanup that raises puts
    its own exception in its place. *)
Theorem archive_failure_keeps_source (w : world) (s : state) (code : Z) :
  go_probe w s = Exited 0 ->
  swig_probe w (after_go_probe w s) = Exited 0 ->
  generator_exit w s = Exited 0 ->
  archive_exit w s = Exited code ->
  code <> 0%Z ->
  let out := build_extension w s in
  let t := tempdir_of w s in
  let before :=
    (trace (generated w s) ++
     [Stderr_write (build_env w s) (go_build w t);
      Check_call (go_build w t)
                 (root_path w (classify (setup.sys_platform w)) t)
                 (build_env w s ∪ os_environ w)])%list in
  fst out = after_cleanup (cleanup w before t)
              (Raise (CalledProcessError code (go_build w t))) /\
  ext (snd out) = ext (generated w s) /\
  trace (snd out) = (before ++ [Rmtree t])%list /\
  (cleanable (removal w) (staged_tree w before t) = true ->
   fst out = Raise (CalledProcessError code (go_build w t)) /\
   t ∉ staging (snd out)).
Proof.
  intros Hgo Hswig Hgen Harch Hcode out t before. subst out.
  rewrite (build_extension_probed w s Hgo Hswig).
  rewrite (generate_and_link_archive_fails w _ _ _ (fetched w s)
             (CalledProcessError code (go_build w (tempdir_of w s)))).
  - cbn [fst snd ext trace staging].
    split; [reflexivity|]. split; [reflexivity|]. split; [reflexivity|].
    intros Hc. fold t. change (cleanup w _ t) with (cleanup w before t).
    rewrite (cleanup_removes _ _ _ Hc). split; [reflexivity|].
    cbn [snd]. set_solver.
  - exact Hgen.
  - match goal with
    | |- check_call_outcome _ ?e = _ => change e with (archive_exit w s)
    end.
    rewrite Harch. destruct code; [congruence | reflexivity | reflexivity].
Qed.

Lemma archive_failure_keeps_source_witness :
  let w := machine "linux" ∅ archive_build_fails in
  fst (build_extension w initial) =
    Raise (CalledProcessError 2 (go_build w "/tmp/tmpq1w2e3")) /\
  sources (ext (snd (build_extension w initial))) = ["/tmp/tmpq1w2e3/src/pyswat.c"].
Proof.
  intros w.
  destruct (archive_failure_keeps_source w initial 2 eq_refl eq_refl eq_refl
              eq_refl ltac:(discriminate)) as (_ & -> & _ & Hclean).
  destruct (Hclean eq_refl) as [-> _].
  split; reflexivity.
Defined.

(** *** The fetch does not matter to the outcome *)

Lemma bind_agree {A B : Type} (m1 m2 : M state A) (k1 k2 : A -> M state B)
      (s : state) :
  m1 s = m2 s -> (forall a s', k1 a s' = k2 a s') ->
  bind m1 k1 s = bind m2 k2 s.
Proof.
  intros Hm Hk. unfold bind. rewrite Hm.
  destruct (m2 s) as [[a|e] s']; [apply Hk | reflexivity].
Qed.

Section fetch_ignored.
Context (w : world)
        (run : list event -> list string -> string -> gmap string string -> exit).
Hypothesis run_agrees :
  forall tr cmd cwd env,
    cmd <> go_get w -> run tr cmd cwd env = subprocess_run w tr cmd cwd env.

Lemma _check_call_agree (cmd : list string) (cwd : string)
      (env : gmap string string) (s : state) :
  cmd <> go_get w ->
  _check_call (with_run w run) cmd cwd env s = _check_call w cmd cwd env s.
Proof.
  intros Hcmd. rewrite !_check_call_run. simpl. now rewrite run_agrees.
Qed.

Lemma check_toolchains_agree (s : state) :
  check_toolchains (with_run w run) s = check_toolchains w s.
Proof.
  unfold check_toolchains, try_except.
  apply bind_agree; [|intros _ s'];
    rewrite _check_call_agree by (unfold go_get; simpl; congruence);
    reflexivity.
Qed.

Lemma generate_and_link_agree (platform : profile) (tempdir : string)
      (env : gmap string string) (s : state) :
  generate_and_link (with_run w run) platform tempdir env s =
  generate_and_link w platform tempdir env s.
Proof.
  unfold generate_and_link.
  apply bind_agree;
    [apply _check_call_agree; unfold go_get, swig; simpl; congruence|].
  intros _ s1. apply bind_agree; [reflexivity|].
  intros _ s2. apply bind_agree;
    [apply _check_call_agree; unfold go_get, go_build; simpl; congruence|].
  intros _ s3. apply bind_agree; [reflexivity|].
  intros _ s4. destruct platform; try reflexivity.
  apply bind_agree; [reflexivity|].
  intros e s5. apply _check_call_agree. unfold go_get, gcc_link; simpl; congruence.
Qed.

Lemma build_extension_agree (s : state) :
  build_extension (with_run w run) s = build_extension w s.
Proof.
  unfold build_extension. apply bind_agree; [apply check_toolchains_agree|].
  intros _ s0. rewrite !_tmpdir_run. simpl.
  assert (Hbody : forall t s1,
             staged_build (with_run w run) (classify (setup.sys_platform w)) t s1 =
             staged_build w (classify (setup.sys_platform w)) t s1).
  { intros t s1. unfold staged_build.
    apply bind_agree; [reflexivity|]. intros _ s2.
    apply bind_agree; [by rewrite !fetch_run|]. intros _ s3.
    apply generate_and_link_agree. }
  now rewrite Hbody.
Qed.
End fetch_ignored.

(** X20: how the two fetch attempts end has no influence on the build:
    two machines that differ only in how the fetch command ends give the
    same result, the same build description and the same trace. *)
Theorem fetch_outcome_ignored (w : world)
        (run : list event -> list string -> string -> gmap string string -> exit)
        (s : state) :
  (forall tr cmd cwd env,
      cmd <> go_get w -> run tr cmd cwd env = subprocess_run w tr cmd cwd env) ->
  build_extension (with_run w run) s = build_extension w s.
Proof. intros H. by apply build_extension_agree. Qed.

Lemma fetch_outcome_ignored_witness :
  let w := machine "linux" ∅ all_succeed in
  build_extension (with_run w (fails_on (go_get w))) initial =
  build_extension w initial.
Proof.
  intros w. apply (fetch_outcome_ignored w (fails_on (go_get w)) initial).
  intros tr cmd cwd env Hcmd. unfold fails_on.
  rewrite bool_decide_eq_false_2 by exact Hcmd. reflexivity.
Defined.

(** *** The build description only grows *)

Lemma continues_refl (e : Extension) : continues e e.
Proof. by repeat split. Qed.

Lemma continues_trans (e1 e2 e3 : Extension) :
  continues e1 e2 -> continues e2 e3 -> continues e1 e3.
Proof.
  intros (Hn & H1 & H2 & H3 & H4) (Hn' & H1' & H2' & H3' & H4').
  repeat split; [congruence | by etrans ..].
Qed.

Lemma grows_still {A} (m : M state A) :
  (forall s, ext (snd (m s)) = ext s) -> grows m.
Proof. intros H s. rewrite H. apply continues_refl. Qed.

Lemma grows_bind {A B} (m : M state A) (k : A -> M state B) :
  grows m -> (forall a, grows (k a)) -> grows (bind m k).
Proof.
  intros Hm Hk s. unfold bind. specialize (Hm s).
  destruct (m s) as [[a|e] s1]; simpl in *; [|exact Hm].
  eapply continues_trans; [exact Hm | apply Hk].
Qed.

Lemma grows_try_except_pass (m : M state unit) :
  grows m -> grows (try_except_pass m).
Proof.
  intros Hm s. unfold try_except_pass. specialize (Hm s).
  by destruct (m s) as [r s1].
Qed.

Lemma grows_try_except {A} (m : M state A) (catches : exn -> bool)
      (handler : exn -> M state A) :
  grows m -> (forall e, grows (handler e)) -> grows (try_except m catches handler).
Proof.
  intros Hm Hh s. unfold try_except. specialize (Hm s).
  destruct (m s) as [[a|e] s1]; simpl in *; [exact Hm|].
  destruct (catches e); [|exact Hm].
  eapply continues_trans; [exact Hm | apply Hh].
Qed.

Lemma grows__check_call (w : world) (cmd : list string) (cwd : string)
      (env : gmap string string) : grows (_check_call w cmd cwd env).
Proof. apply grows_still. intros s. now rewrite _check_call_run. Qed.

Lemma grows_append (f : Extension -> Extension) :
  (forall e, continues e (f e)) -> grows (update_ext f).
Proof. intros H s. apply H. Qed.

Lemma grows__tmpdir {A} (w : world) (body : string -> M state A) :
  (forall t, grows (body t)) -> grows (_tmpdir w body).
Proof.
  intros Hbody s. rewrite _tmpdir_run. simpl.
  match goal with
  | |- context [body ?t ?s1] => apply (Hbody t s1)
  end.
Qed.

Ltac grows_step :=
  first
    [ apply grows__check_call
    | apply grows_append; intros ?; repeat split; simpl;
      first [reflexivity | by apply prefix_app_r]
    | apply grows_bind; [|intros ?]
    | apply grows_try_except_pass
    | apply grows_try_except; [|intros ?]
    | apply grows_still; intros; reflexivity
    | match goal with
      | |- grows (if ?b then _ else _) => destruct b
      | |- grows (match ?x with _ => _ end) => destruct x
      end ].

(** X21: however a build ends, the build description it leaves continues
    the one it was given: the name is the same and each of the four lists
    begins with its former contents in their former order.  Nothing the
    caller put there is ever dropped, replaced or reordered. *)
Theorem build_only_appends (w : world) (s : state) :
  continues (ext s) (ext (snd (build_extension w s))).
Proof.
  assert (H : grows (build_extension w)).
  { unfold build_extension, check_toolchains.
    apply grows_bind; [repeat grows_step | intros ?].
    apply grows__tmpdir. intros t.
    unfold staged_build, generate_and_link, fetch, prepare_link, os_makedirs,
      sources_append, extra_compile_args_append, include_dirs_append,
      extra_link_args_append, build_ext_build_extension, emit, modify.
    repeat grows_step. }
  apply H.
Qed.
